(** * compareCSV: filtering and key-based reconciliation of CSV records

    A shallow embedding of [compareCSV.py].

    - A row ([Dict[str, str]] as [csv.DictReader] yields it) is an association
      list in insertion order; the functions of the module only use
      [in], [get], [keys] and item assignment on it.
    - Text is [string]; Python compares [str] by code point, which on UTF-8
      encoded text is the byte-wise order of [String.compare].  The case
      folding, whitespace and word-character classes below are the ASCII ones.
    - The index built by [index_by_keys] is a [gmap] from key tuples to rows,
      key sets are [gset]s.
    - File input and output and [print] are threaded through a state and
      exception monad over a [World]: the files by path, and the printed lines.
      A file is what [read_csv] returns for it; reading a path without a file
      raises, opening a path for writing always succeeds.
    - [uniform] says that the rows of a file have no field outside the first
      row's, as the rows read from one header have; the writer raises on other
      rows, so the theorems about written files assume it.
    - A row holds texts only.  For a line shorter than the header
      [csv.DictReader] fills the fields the line lacks with [None]; such a row
      is here a row without these fields.  [r.get(col)] is [None] on it here as
      in the code, but [r.get(col, empty)] is the empty text here and [None] in
      the code.  The statements that say what the code returns through
      composite keys, compared values or the prefix filter are therefore made
      for rows [filled] in the columns read, and those that depend on case
      folding, trimming or word characters for [is_ascii] text.
*)

From Stdlib Require Import Ascii String.
From stdpp Require Import gmap strings list sorting pretty.

(** ** Rows as Python dicts *)

Abbreviation Row := (list (string * string)).
Abbreviation Key := (list string).

Module Dict.

(** [r.keys()] *)
Definition keys (r : Row) : list string := r.*1.

(** [r.get(col)]: [None] stands for Python's [None] *)
Fixpoint get (r : Row) (col : string) : option string :=
  match r with
  | [] => None
  | (k, v) :: r' => if decide (k = col) then Some v else get r' col
  end.

(** [r.get(col, d)], for a row that has a text in [col] or lacks the field *)
Definition get_or (r : Row) (col d : string) : string :=
  default d (get r col).

(** [r[k] = v]: an existing key keeps its position *)
Fixpoint set (r : Row) (k v : string) : Row :=
  match r with
  | [] => [(k, v)]
  | (k', v') :: r' => if decide (k' = k) then (k, v) :: r' else (k', v') :: set r' k v
  end.

End Dict.

(** ** The world: files and standard output *)

(** A CSV file: its header line and its records, as [csv.DictReader] reads
    them back. *)
Record CsvFile := mkCsvFile {
  fieldnames : list string;
  records : list Row
}.

(** One printed line.  Lines that interpolate a tuple, a dict or a number keep
    the interpolated values instead of their [repr]. *)
Inductive Line :=
  | Text (s : string)
  | WroteRows (n : nat) (path : string)
  | WroteMatched (n : nat) (col value path : string)
  | WroteUnmatched (n : nat) (col value path : string)
  | KeyRow (k : Key) (r : Row)
  | DiffLine (k : Key) (col v1 v2 : string)
  | WroteDiffs (n : nat) (path : string).

Record World := mkWorld {
  files : gmap string CsvFile;
  stdout : list Line
}.

Inductive Exn :=
  | ValueError (msg : string)
  | FileNotFoundError (path : string)
  | KeyError (k : Key)
  | IndexError
  | WriterValueError (wrong_fields : list string).

Inductive Result (A : Type) :=
  | Ok (a : A)
  | Raise (e : Exn).
Arguments Ok {A} a.
Arguments Raise {A} e.

(** ** The state and exception monad *)

Definition M (A : Type) : Type := World → Result A * World.

Definition ret {A} (a : A) : M A := λ w, (Ok a, w).

Definition bind {A B} (m : M A) (k : A → M B) : M B :=
  λ w, match m w with
       | (Ok a, w') => k a w'
       | (Raise e, w') => (Raise e, w')
       end.

Definition raise {A} (e : Exn) : M A := λ w, (Raise e, w).

Definition lift {A} (r : Result A) : M A := λ w, (r, w).

Declare Scope m_scope.
Delimit Scope m_scope with M.
Notation "x <- m ;; k" := (bind m (λ x, k))
  (at level 100, m at next level, right associativity) : m_scope.
Notation "m ;;; k" := (bind m (λ _, k))
  (at level 100, right associativity) : m_scope.
Local Open Scope m_scope.

(** [for x in xs: body x] *)
Fixpoint for_each {A} (xs : list A) (body : A → M unit) : M unit :=
  match xs with
  | [] => ret tt
  | x :: xs' => body x ;;; for_each xs' body
  end.

(** [if cond: body] *)
Definition when (cond : bool) (body : M unit) : M unit :=
  if cond then body else ret tt.

(** Truth value of a [str | None] argument: [None] and the empty text are false. *)
Definition truthy (p : option string) : option string :=
  match p with
  | Some "" => None
  | _ => p
  end.

(** ** Primitive effects *)

Definition print (l : Line) : M unit :=
  λ w, (Ok tt, mkWorld (files w) (stdout w ++ [l])).

(** [read_csv(path)] *)
Definition read_csv (path : string) : M (list Row) :=
  λ w, match files w !! path with
       | Some f => (Ok (records f), w)
       | None => (Raise (FileNotFoundError path), w)
       end.

(** [open(path, mode w)]: creates or truncates the file *)
Definition open_w (path : string) : M unit :=
  λ w, (Ok tt, mkWorld (<[path := mkCsvFile [] []]> (files w)) (stdout w)).

(** [writer.writeheader()] of a [csv.DictWriter(f, fieldnames=fns)] *)
Definition writeheader (path : string) (fns : list string) : M unit :=
  λ w, (Ok tt,
        mkWorld (alter (λ f, mkCsvFile fns (records f)) path (files w)) (stdout w)).

(** The cells [DictWriter] lays out for a row, keyed by field name: a field
    the row lacks is written as the empty text. *)
Definition project (fns : list string) (r : Row) : Row :=
  (λ f, (f, Dict.get_or r f "")) <$> fns.

(** [writer.writerow(r)]: a row with a field outside [fieldnames] raises
    [ValueError] (the writer's default [extrasaction]). *)
Definition writerow (path : string) (fns : list string) (r : Row) : M unit :=
  match filter (λ k, k ∉ fns) (Dict.keys r) with
  | [] => λ w, (Ok tt,
                mkWorld (alter (λ f, mkCsvFile (fieldnames f) (records f ++ [project fns r]))
                               path (files w))
                        (stdout w))
  | wrong => raise (WriterValueError wrong)
  end.

(** [writer.writerows(rows)] *)
Definition writerows (path : string) (fns : list string) (rows : list Row) : M unit :=
  for_each rows (writerow path fns).

(** The block every filter ends with:
    [with open(path, mode w) as f: writer = DictWriter(f, fieldnames=fns);
     writer.writeheader(); writer.writerows(rows)] *)
Definition export (path : string) (fns : list string) (rows : list Row) : M unit :=
  open_w path ;;;
  writeheader path fns ;;;
  writerows path fns rows.

(** ** Text helpers

    The methods of [str] the module uses, as they are on ASCII text. *)

Module Text.

Definition code (c : ascii) : N := N_of_ascii c.

Definition is_upper (c : ascii) : bool := (65 <=? code c)%N && (code c <=? 90)%N.
Definition is_lower (c : ascii) : bool := (97 <=? code c)%N && (code c <=? 122)%N.
Definition is_digit (c : ascii) : bool := (48 <=? code c)%N && (code c <=? 57)%N.

(** [str.isspace] on ASCII: tab to carriage return, the four separators
    and the space *)
Definition is_space (c : ascii) : bool :=
  ((9 <=? code c)%N && (code c <=? 13)%N)
  || ((28 <=? code c)%N && (code c <=? 32)%N).

(** [\w] on ASCII text *)
Definition is_word (c : ascii) : bool :=
  is_upper c || is_lower c || is_digit c || bool_decide (c = "_"%char).

Definition lower_char (c : ascii) : ascii :=
  if is_upper c then ascii_of_N (code c + 32) else c.

(** [s.lower()] on ASCII text *)
Fixpoint lower (s : string) : string :=
  match s with
  | EmptyString => EmptyString
  | String c s' => String (lower_char c) (lower s')
  end.

Fixpoint lstrip (s : string) : string :=
  match s with
  | EmptyString => EmptyString
  | String c s' => if is_space c then lstrip s' else s
  end.

(** [s.rstrip()]: the text up to its last non-space character *)
Fixpoint rstrip (s : string) : string :=
  match s with
  | EmptyString => EmptyString
  | String c s' =>
      match rstrip s' with
      | EmptyString => if is_space c then EmptyString else String c EmptyString
      | t => String c t
      end
  end.

(** [s.strip()] *)
Definition strip (s : string) : string := rstrip (lstrip s).

(** [s.startswith(p)] *)
Fixpoint startswith (s p : string) : bool :=
  match p, s with
  | EmptyString, _ => true
  | String _ _, EmptyString => false
  | String b p', String a s' => bool_decide (a = b) && startswith s' p'
  end.

End Text.


(** ** The pattern of [filter_rows_name_matches_cuba]

    A backtracking matcher for the constructs the module's one pattern uses:
    [\b], a literal character under [re.IGNORECASE], and the greedy [\w*].
    The capture group of the pattern has no effect on whether it matches. *)

Module Re.

Inductive atom :=
  | WordBoundary
  | Lit (c : ascii)
  | WordStar.

Definition word_at (c : option ascii) : bool := from_option Text.is_word false c.

Definition next_char (s : string) : option ascii :=
  match s with
  | String c _ => Some c
  | EmptyString => None
  end.

(** [\b]: exactly one of the characters around the position is a word
    character; outside the text counts as a non-word character. *)
Definition at_boundary (prev : option ascii) (s : string) : bool :=
  xorb (word_at prev) (word_at (next_char s)).

(** Does the pattern match at this position?  [prev] is the character before
    the position. *)
Fixpoint match_here (p : list atom) : option ascii → string → bool :=
  match p with
  | [] => λ _ _, true
  | a :: p' =>
      let rest := match_here p' in
      match a with
      | WordBoundary => λ prev s, at_boundary prev s && rest prev s
      | Lit c => λ _ s,
          match s with
          | String x s' =>
              bool_decide (Text.lower_char x = Text.lower_char c) && rest (Some x) s'
          | EmptyString => false
          end
      | WordStar =>
          fix star (prev : option ascii) (s : string) {struct s} : bool :=
            match s with
            | String x s' =>
                if Text.is_word x then star (Some x) s' || rest prev s else rest prev s
            | EmptyString => rest prev s
            end
      end
  end.

Fixpoint search_from (p : list atom) (prev : option ascii) (s : string) : bool :=
  match_here p prev s
  || match s with
     | String x s' => search_from p (Some x) s'
     | EmptyString => false
     end.

(** [pattern.search(s) is not None] *)
Definition search (p : list atom) (s : string) : bool := search_from p None s.

End Re.

(** The compiled pattern of the module: a word boundary, the group of the
    letters c, u, b, a and any number of word characters, a word boundary;
    compiled with [re.IGNORECASE]. *)
Definition cuba_pattern : list Re.atom :=
  [Re.WordBoundary; Re.Lit "c"; Re.Lit "u"; Re.Lit "b"; Re.Lit "a"; Re.WordStar;
   Re.WordBoundary].

(** ** The filters *)

(** The message of the [ValueError] for a column missing from a file *)
Definition column_not_found (column_name file_path : string) : string :=
  "Column '" +:+ column_name +:+ "' not found in " +:+ file_path.

(** [filter_rows_by_column] *)
Definition filter_rows_by_column
    (file_path column_name value : string) (output_path : option string)
    : M (list Row) :=
  rows <- read_csv file_path ;;
  match rows with
  | [] => print (Text "No rows in file.") ;;; ret []
  | first :: _ =>
      if decide (column_name ∉ Dict.keys first) then
        raise (ValueError (column_not_found column_name file_path))
      else
        let filtered := filter (λ r, Dict.get r column_name = Some value) rows in
        match truthy output_path with
        | Some path =>
            export path (Dict.keys first) filtered ;;;
            print (WroteRows (length filtered) path)
        | None => ret tt
        end ;;;
        ret filtered
  end.

(** [filter_rows_by_column_value] *)
Definition filter_rows_by_column_value
    (file_path value : string) (matched_output unmatched_output : option string)
    : M (list Row * list Row) :=
  let column_name := "Attribute 2 value(s)" in
  rows <- read_csv file_path ;;
  match rows with
  | [] => print (Text "No rows in file") ;;; ret ([], [])
  | first :: _ =>
      if decide (column_name ∉ Dict.keys first) then
        raise (ValueError (column_not_found column_name file_path))
      else
        let matched := filter (λ r, Dict.get r column_name = Some value) rows in
        let unmatched := filter (λ r, Dict.get r column_name ≠ Some value) rows in
        match truthy matched_output with
        | Some path =>
            export path (Dict.keys first) matched ;;;
            print (WroteMatched (length matched) column_name value path)
        | None => ret tt
        end ;;;
        match truthy unmatched_output with
        | Some path =>
            export path (Dict.keys first) unmatched ;;;
            print (WroteUnmatched (length unmatched) column_name value path)
        | None => ret tt
        end ;;;
        ret (matched, unmatched)
  end.

(** The local function [starts] of [filter_rows_by_column_prefix], for both
    values of [case_sensitive] *)
Definition starts (prefix : string) (case_sensitive trim : bool) (val : string) : bool :=
  let val := if trim then Text.strip val else val in
  if case_sensitive then Text.startswith val prefix
  else Text.startswith (Text.lower val) (Text.lower prefix).

(** [filter_rows_by_column_prefix] *)
Definition filter_rows_by_column_prefix
    (file_path column_name prefix : string) (output_path : option string)
    (case_sensitive trim : bool) : M (list Row) :=
  rows <- read_csv file_path ;;
  match rows with
  | [] => print (Text "No rows in file.") ;;; ret []
  | first :: _ =>
      if decide (column_name ∉ Dict.keys first) then
        raise (ValueError (column_not_found column_name file_path))
      else
        let filtered :=
          filter (λ r, starts prefix case_sensitive trim (Dict.get_or r column_name "")) rows in
        match truthy output_path with
        | Some path =>
            export path (Dict.keys first) filtered ;;;
            print (WroteRows (length filtered) path)
        | None => ret tt
        end ;;;
        ret filtered
  end.

(** The local function [matches] of [filter_rows_name_matches_cuba] *)
Definition matches (val : string) : bool :=
  match val with
  | EmptyString => false
  | _ => Re.search cuba_pattern val
  end.

(** [filter_rows_name_matches_cuba] *)
Definition filter_rows_name_matches_cuba
    (file_path : string) (output_path : option string) (column_name : string)
    : M (list Row) :=
  rows <- read_csv file_path ;;
  match rows with
  | [] => print (Text "No rows in file.") ;;; ret []
  | first :: _ =>
      if decide (column_name ∉ Dict.keys first) then
        raise (ValueError (column_not_found column_name file_path))
      else
        let filtered := filter (λ r, matches (Dict.get_or r column_name "")) rows in
        match truthy output_path with
        | Some path =>
            export path (Dict.keys first) filtered ;;;
            print (WroteRows (length filtered) path)
        | None => ret tt
        end ;;;
        ret filtered
  end.

(** ** The keyed index *)

(** [tuple(r.get(col, empty) for col in key_columns)] *)
Definition key_of (key_columns : list string) (r : Row) : Key :=
  (λ col, Dict.get_or r col "") <$> key_columns.

(** The loop of [index_by_keys] over [key_columns] that raises at the first
    key column missing from the first row *)
Fixpoint check_key_columns (first : Row) (key_columns : list string) : Result unit :=
  match key_columns with
  | [] => Ok tt
  | col :: rest =>
      if decide (col ∉ Dict.keys first) then
        Raise (ValueError ("Key column '" +:+ col +:+ "' not found in CSV"))
      else check_key_columns first rest
  end.

(** The loop of [index_by_keys] over the rows: [index[key] = r] *)
Definition fill_index (key_columns : list string) (rows : list Row)
    (index : gmap Key Row) : gmap Key Row :=
  foldl (λ index r, <[key_of key_columns r := r]> index) index rows.

(** [index_by_keys] *)
Definition index_by_keys (rows : list Row) (key_columns : list string)
    : Result (gmap Key Row) :=
  match rows with
  | [] => Ok ∅
  | first :: _ =>
      match check_key_columns first key_columns with
      | Raise e => Raise e
      | Ok _ => Ok (fill_index key_columns rows ∅)
      end
  end.

(** ** The order of key tuples *)

(** [k1 < k2] on tuples of [str]: the first position where the tuples differ
    decides; a proper prefix is smaller. *)
Fixpoint tuple_lt (k1 k2 : Key) : bool :=
  match k1, k2 with
  | _, [] => false
  | [], _ :: _ => true
  | a :: k1', b :: k2' => if decide (a = b) then tuple_lt k1' k2' else String.ltb a b
  end.

(** The order [sorted] merges by: the left element stays first unless the
    right one is smaller. *)
Definition key_le (k1 k2 : Key) : Prop := tuple_lt k2 k1 = false.

#[global] Instance key_le_dec : RelDecision key_le.
Proof. intros k1 k2. unfold key_le. apply _. Defined.

(** [sorted(s)] for a set of key tuples of texts *)
Definition sorted (s : gset Key) : list Key := merge_sort key_le (elements s).

(** ** Reconciliation *)

(** [idx[k]] *)
Definition getitem (idx : gmap Key Row) (k : Key) : M Row :=
  match idx !! k with
  | Some r => ret r
  | None => raise (KeyError k)
  end.

(** The separator line of sixty dashes *)
Definition dashes : Line :=
  Text "------------------------------------------------------------".

(** One of the two blocks that export the rows only in one file; the source
    spells the block out once per file. *)
Definition export_only_in (title : string) (idx : gmap Key Row) (first : Row)
    (only : gset Key) (output : option string) : M unit :=
  when (bool_decide (only ≠ ∅))
    (print (Text title) ;;;
     match truthy output with
     | Some path =>
         open_w path ;;;
         writeheader path (Dict.keys first) ;;;
         for_each (sorted only) (λ k,
           r <- getitem idx k ;;
           writerow path (Dict.keys first) r ;;;
           r <- getitem idx k ;;
           print (KeyRow k r))
     | None =>
         for_each (sorted only) (λ k,
           r <- getitem idx k ;;
           print (KeyRow k r))
     end ;;;
     print dashes).

(** [for i, key_col in enumerate(key_columns): row_out[key_col] = k[i]],
    from index [i] on *)
Fixpoint key_fields (i : nat) (key_columns : list string) (k : Key) (row_out : Row)
    : Result Row :=
  match key_columns with
  | [] => Ok row_out
  | key_col :: rest =>
      match k !! i with
      | Some v => key_fields (S i) rest k (Dict.set row_out key_col v)
      | None => Raise IndexError
      end
  end.

(** The difference row of a key and a column *)
Definition make_row_out (key_columns : list string) (k : Key) (col v1 v2 : string)
    : Result Row :=
  match key_fields 0 key_columns k [] with
  | Raise e => Raise e
  | Ok row_out =>
      Ok (Dict.set (Dict.set (Dict.set row_out "column" col) "value_file1" v1)
            "value_file2" v2)
  end.

(** A loop that updates a local variable: [for x in xs: acc = body x acc] *)
Fixpoint for_acc {A S} (xs : list A) (acc : S) (body : A → S → M S) : M S :=
  match xs with
  | [] => ret acc
  | x :: xs' => acc' <- body x acc ;; for_acc xs' acc' body
  end.

(** The inner loop over [compare_columns] for one shared key *)
Definition diff_columns (key_columns compare_columns : list string)
    (k : Key) (r1 r2 : Row) (diff_rows : list Row) : M (list Row) :=
  for_acc compare_columns diff_rows (λ col diff_rows,
    let v1 := Dict.get_or r1 col "" in
    let v2 := Dict.get_or r2 col "" in
    if decide (v1 ≠ v2) then
      row_out <- lift (make_row_out key_columns k col v1 v2) ;;
      print (DiffLine k col v1 v2) ;;;
      ret (diff_rows ++ [row_out])
    else ret diff_rows).

(** The loop over the shared keys that collects [diff_rows] *)
Definition collect_diffs (key_columns compare_columns : list string)
    (idx1 idx2 : gmap Key Row) (in_both : gset Key) : M (list Row) :=
  for_acc (sorted in_both) [] (λ k diff_rows,
    r1 <- getitem idx1 k ;;
    r2 <- getitem idx2 k ;;
    diff_columns key_columns compare_columns k r1 r2 diff_rows).

(** The validation loop over [compare_columns] *)
Definition check_compare_columns (file1 file2 : string) (first1 first2 : Row)
    (compare_columns : list string) : M unit :=
  for_each compare_columns (λ col,
    if decide (col ∉ Dict.keys first1) then
      raise (ValueError (column_not_found col file1))
    else if decide (col ∉ Dict.keys first2) then
      raise (ValueError (column_not_found col file2))
    else ret tt).

(** [f"{file} has no data."] *)
Definition no_data (file : string) : Line := Text (file +:+ " has no data.").

Definition no_column_differences : Line :=
  Text "No column differences found; diff CSV not created.".

Definition no_differences : Line :=
  Text "No differences found for the given key/compare columns.".

(** [compare_csv_by_keys] *)
Definition compare_csv_by_keys
    (file1 file2 : string) (key_columns compare_columns : list string)
    (diff_output_path only_in_1_output only_in_2_output : option string)
    : M unit :=
  rows1 <- read_csv file1 ;;
  rows2 <- read_csv file2 ;;
  match rows1, rows2 with
  | [], _ => print (no_data file1)
  | _ :: _, [] => print (no_data file2)
  | first1 :: _, first2 :: _ =>
      check_compare_columns file1 file2 first1 first2 compare_columns ;;;
      idx1 <- lift (index_by_keys rows1 key_columns) ;;
      idx2 <- lift (index_by_keys rows2 key_columns) ;;
      let keys1 : gset Key := dom idx1 in
      let keys2 : gset Key := dom idx2 in
      let only_in_1 := keys1 ∖ keys2 in
      let only_in_2 := keys2 ∖ keys1 in
      let in_both := keys1 ∩ keys2 in
      export_only_in "Rows only in file1:" idx1 first1 only_in_1 only_in_1_output ;;;
      export_only_in "Rows only in file2:" idx2 first2 only_in_2 only_in_2_output ;;;
      diff_rows <- collect_diffs key_columns compare_columns idx1 idx2 in_both ;;
      match truthy diff_output_path, diff_rows with
      | Some path, _ :: _ =>
          export path (key_columns ++ ["column"; "value_file1"; "value_file2"]) diff_rows ;;;
          print (WroteDiffs (length diff_rows) path)
      | Some _, [] => print no_column_differences
      | None, _ => ret tt
      end ;;;
      when (bool_decide (only_in_1 = ∅) && bool_decide (only_in_2 = ∅)
            && bool_decide (diff_rows = []))
        (print no_differences)
  end.

(** ** What a run of the reconciliation leaves behind

    The values the loops of [compare_csv_by_keys] go through, as lists; the
    theorems below show that the printed lines and the written files are made
    of them. *)

(** The entries [(k, idx[k])] for the keys of a list *)
Definition entries (idx : gmap Key Row) (ks : list Key) : list (Key * Row) :=
  omap (λ k, pair k <$> idx !! k) ks.

(** The rows only in one file, in the order the loop visits them *)
Definition only_rows (idx other : gmap Key Row) : list (Key * Row) :=
  entries idx (sorted (dom idx ∖ dom other)).

(** A difference: key, column, value in file 1, value in file 2 *)
Record Diff := mkDiff {
  diff_key : Key;
  diff_column : string;
  value_file1 : string;
  value_file2 : string
}.

(** The differences of two rows with key [k], in the order of
    [compare_columns] *)
Definition row_diffs (compare_columns : list string) (k : Key) (r1 r2 : Row)
    : list Diff :=
  omap (λ col,
          let v1 := Dict.get_or r1 col "" in
          let v2 := Dict.get_or r2 col "" in
          if decide (v1 ≠ v2) then Some (mkDiff k col v1 v2) else None)
       compare_columns.

(** The differences over a list of keys *)
Definition key_diffs (compare_columns : list string) (idx1 idx2 : gmap Key Row)
    (ks : list Key) : list Diff :=
  ks ≫= λ k,
    match idx1 !! k, idx2 !! k with
    | Some r1, Some r2 => row_diffs compare_columns k r1 r2
    | _, _ => []
    end.

(** The differences of two indexes, in the order the loops find them *)
Definition all_diffs (compare_columns : list string) (idx1 idx2 : gmap Key Row)
    : list Diff :=
  key_diffs compare_columns idx1 idx2 (sorted (dom idx1 ∩ dom idx2)).

(** The row of the difference report for a difference *)
Definition diff_row (key_columns : list string) (d : Diff) : Row :=
  Dict.set
    (Dict.set
       (Dict.set
          (foldl (λ row_out cv, Dict.set row_out cv.1 cv.2) []
             (zip key_columns (diff_key d)))
          "column" (diff_column d))
       "value_file1" (value_file1 d))
    "value_file2" (value_file2 d).

Definition diff_line (d : Diff) : Line :=
  DiffLine (diff_key d) (diff_column d) (value_file1 d) (value_file2 d).

(** The lines printed for the rows only in one file *)
Definition only_in_lines (title : string) (rows : list (Key * Row)) : list Line :=
  match rows with
  | [] => []
  | _ :: _ => Text title :: (uncurry KeyRow <$> rows) ++ [dashes]
  end.

(** The file written for the rows only in one file *)
Definition only_in_file (first : Row) (rows : list (Key * Row))
    (output : option string) (fs : gmap string CsvFile) : gmap string CsvFile :=
  match truthy output, rows with
  | Some path, _ :: _ =>
      <[path := mkCsvFile (Dict.keys first) (project (Dict.keys first) ∘ snd <$> rows)]> fs
  | _, _ => fs
  end.

(** The header of the difference report *)
Definition diff_fieldnames (key_columns : list string) : list string :=
  key_columns ++ ["column"; "value_file1"; "value_file2"].

(** The difference report, written when there is a path and a difference *)
Definition diff_file (key_columns : list string) (diffs : list Diff)
    (output : option string) (fs : gmap string CsvFile) : gmap string CsvFile :=
  match truthy output, diffs with
  | Some path, _ :: _ =>
      <[path := mkCsvFile (diff_fieldnames key_columns)
                  (project (diff_fieldnames key_columns) ∘ diff_row key_columns <$> diffs)]> fs
  | _, _ => fs
  end.

(** The lines printed after the differences *)
Definition closing_lines (onlyA onlyB : list (Key * Row)) (diffs : list Diff)
    (output : option string) : list Line :=
  match truthy output, diffs with
  | Some path, _ :: _ => [WroteDiffs (length diffs) path]
  | Some _, [] => [no_column_differences]
  | None, _ => []
  end
  ++ match onlyA, onlyB, diffs with
     | [], [], [] => [no_differences]
     | _, _, _ => []
     end.

(** The world after a run that compared the two indexes *)
Definition compared (first1 first2 : Row) (idx1 idx2 : gmap Key Row)
    (key_columns compare_columns : list string)
    (diff_output_path only_in_1_output only_in_2_output : option string)
    (w : World) : World :=
  let onlyA := only_rows idx1 idx2 in
  let onlyB := only_rows idx2 idx1 in
  let diffs := all_diffs compare_columns idx1 idx2 in
  mkWorld
    (diff_file key_columns diffs diff_output_path
       (only_in_file first2 onlyB only_in_2_output
          (only_in_file first1 onlyA only_in_1_output (files w))))
    (stdout w
     ++ only_in_lines "Rows only in file1:" onlyA
     ++ only_in_lines "Rows only in file2:" onlyB
     ++ (diff_line <$> diffs)
     ++ closing_lines onlyA onlyB diffs diff_output_path).

(** Every row has only fields of the header [fns] *)
Definition uniform (fns : list string) (rows : list Row) : Prop :=
  Forall (λ r, Dict.keys r ⊆ fns) rows.

(** ** Relations between the world before and after a run *)

(** Every run of [m] relates the world it starts in to the one it ends in,
    whether it returns or raises. *)
Definition preserves (R : relation World) {A} (m : M A) : Prop :=
  ∀ w r w', m w = (r, w') → R w w'.

(** Only the files at the paths of [S] were written. *)
Definition written (S : string → Prop) : relation World :=
  λ w w', ∀ p, ¬ S p → files w' !! p = files w !! p.


(** Strictly ascending key tuples *)
Definition ascending (ks : list Key) : Prop :=
  StronglySorted (λ k1 k2, tuple_lt k1 k2 = true) ks.

(** ** Rows of one header *)

(** The rows have exactly the fields [fns], in this order, and the names of
    [fns] are distinct: what [csv.DictReader] yields for lines as long as a
    header of distinct names. *)
Definition tabular (fns : list string) (rows : list Row) : Prop :=
  NoDup fns ∧ Forall (λ r, Dict.keys r = fns) rows.

(** ** The script *)





(** The message of the [ValueError] of [index_by_keys] *)
Definition key_column_not_found (col : string) : string :=
  "Key column '" +:+ col +:+ "' not found in CSV".

(** ** Rows with text in the columns read *)

(** Every row has a text in each of the columns [cols]: no line of the file is
    too short to have a cell for them.  On other rows the code has [None]
    where [Dict.get_or] has the empty text: it raises on ordering key tuples
    with [None] or on the [str] methods of [starts], and it reports [None]
    against the empty text as a difference. *)
Definition filled (cols : list string) (rows : list Row) : Prop :=
  Forall (λ r, Forall (λ col, col ∈ Dict.keys r) cols) rows.



(** * Properties *)

(** ** The order of key tuples *)

Section key_order.

Lemma ltb_leb (a b : string) : String.ltb a b = negb (String.leb b a).
Proof.
  unfold String.ltb, String.leb. rewrite (String.compare_antisym b a).
  by destruct (String.compare a b).
Qed.

Lemma ltb_irrefl (a : string) : String.ltb a a = false.
Proof.
  rewrite ltb_leb. apply negb_false_iff, Is_true_true.
  change (String.le a a). done.
Qed.

Lemma ltb_asym (a b : string) : String.ltb a b = true → String.ltb b a = false.
Proof.
  rewrite !ltb_leb, negb_true_iff, negb_false_iff. intros Hba.
  destruct (total String.le a b) as [H|H]; [by apply Is_true_true|].
  apply Is_true_true in H. unfold String.le in H. congruence.
Qed.

Lemma ltb_connex (a b : string) :
  String.ltb a b = false → String.ltb b a = false → a = b.
Proof.
  rewrite !ltb_leb, !negb_false_iff. intros Hba Hab.
  apply (anti_symm String.le); by apply Is_true_true.
Qed.

Lemma ltb_neg_trans (a b c : string) :
  String.ltb b a = false → String.ltb c b = false → String.ltb c a = false.
Proof.
  rewrite !ltb_leb, !negb_false_iff. intros Hab Hbc.
  apply Is_true_true. change (String.le a c).
  transitivity b; by apply Is_true_true.
Qed.


Lemma tuple_lt_asym (k1 k2 : Key) : tuple_lt k1 k2 = true → tuple_lt k2 k1 = false.
Proof.
  revert k2. induction k1 as [|a k1 IH]; intros [|b k2]; simpl; try done.
  destruct (decide (a = b)) as [->|Hne].
  - rewrite decide_True by done. apply IH.
  - rewrite decide_False by done. apply ltb_asym.
Qed.

Lemma tuple_lt_connex (k1 k2 : Key) :
  tuple_lt k1 k2 = false → tuple_lt k2 k1 = false → k1 = k2.
Proof.
  revert k2. induction k1 as [|a k1 IH]; intros [|b k2]; simpl; try done.
  destruct (decide (a = b)) as [->|Hne].
  - rewrite decide_True by done. intros H1 H2. f_equal. by apply IH.
  - rewrite decide_False by done. intros H1 H2. by destruct Hne; apply ltb_connex.
Qed.

Lemma tuple_lt_neg_trans (k1 k2 k3 : Key) :
  tuple_lt k2 k1 = false → tuple_lt k3 k2 = false → tuple_lt k3 k1 = false.
Proof.
  revert k2 k3. induction k1 as [|a k1 IH]; intros [|b k2] [|c k3]; simpl; try done.
  repeat case_decide; subst; try done.
  - apply IH.
  - intros H1 H2. destruct H. by apply ltb_connex.
  - apply ltb_neg_trans.
Qed.

#[global] Instance key_le_total : Total key_le.
Proof.
  intros k1 k2. unfold key_le.
  destruct (tuple_lt k2 k1) eqn:E; [right; by apply tuple_lt_asym | by left].
Qed.

#[global] Instance key_le_trans : Transitive key_le.
Proof. intros k1 k2 k3. apply tuple_lt_neg_trans. Qed.

#[global] Instance key_le_antisym : AntiSymm (=) key_le.
Proof. intros k1 k2 H1 H2. by apply tuple_lt_connex. Qed.


End key_order.

(** ** The keyed index *)

Section index.

Context (key_columns : list string).

Lemma fill_index_lookup (rows : list Row) (index : gmap Key Row) (k : Key) :
  fill_index key_columns rows index !! k =
    match last (filter (λ r, key_of key_columns r = k) rows) with
    | Some r => Some r
    | None => index !! k
    end.
Proof.
  revert index. induction rows as [|r rows IH]; intros index; [done|].
  unfold fill_index in *. simpl. rewrite IH, filter_cons.
  destruct (decide (key_of key_columns r = k)) as [<-|Hne].
  - rewrite last_cons, lookup_insert_eq.
    by destruct (last (filter _ rows)).
  - by rewrite lookup_insert_ne.
Qed.

Lemma fill_index_dom (rows : list Row) (index : gmap Key Row) :
  dom (fill_index key_columns rows index) =
    list_to_set (key_of key_columns <$> rows) ∪ dom index.
Proof.
  revert index. induction rows as [|r rows IH]; intros index.
  - simpl. set_solver.
  - unfold fill_index in *. simpl. rewrite IH, dom_insert_L. set_solver.
Qed.

Lemma check_key_columns_ok (first : Row) :
  Forall (λ col, col ∈ Dict.keys first) key_columns →
  check_key_columns first key_columns = Ok tt.
Proof.
  induction 1 as [|col cols Hcol _ IH]; [done|].
  simpl. by rewrite decide_False by (by intros ?).
Qed.

Lemma index_by_keys_ok (first : Row) (rest : list Row) :
  Forall (λ col, col ∈ Dict.keys first) key_columns →
  index_by_keys (first :: rest) key_columns =
    Ok (fill_index key_columns (first :: rest) ∅).
Proof. intros H. unfold index_by_keys. by rewrite check_key_columns_ok. Qed.

Lemma index_by_keys_inv (rows : list Row) (idx : gmap Key Row) :
  index_by_keys rows key_columns = Ok idx →
  idx = fill_index key_columns rows ∅.
Proof.
  destruct rows as [|first rest]; simpl; [by intros [= <-]|].
  destruct (check_key_columns _ _); [by intros [= <-] | done].
Qed.

Lemma index_by_keys_dom (rows : list Row) (idx : gmap Key Row) :
  index_by_keys rows key_columns = Ok idx →
  dom idx = list_to_set (key_of key_columns <$> rows).
Proof.
  intros ->%index_by_keys_inv. rewrite fill_index_dom. set_solver.
Qed.

Lemma index_by_keys_lookup (rows : list Row) (idx : gmap Key Row) (k : Key) :
  index_by_keys rows key_columns = Ok idx →
  idx !! k = last (filter (λ r, key_of key_columns r = k) rows).
Proof.
  intros ->%index_by_keys_inv. rewrite fill_index_lookup, lookup_empty.
  by destruct (last _).
Qed.

End index.

Lemma list_to_set_remove_dups (l : list Key) :
  list_to_set (remove_dups l) =@{gset Key} list_to_set l.
Proof. apply set_eq. intros k. by rewrite !elem_of_list_to_set, elem_of_remove_dups. Qed.

(** C2: [index_by_keys] keeps, for every composite key, exactly the last row
    of the sequence that has this key (a pure function: nothing is printed);
    the index of the two rows with [id] 1 has the single entry of the second
    row, whose [v] is b. *)
Theorem index_by_keys_last_write_wins :
  (∀ (rows : list Row) (key_columns : list string) (idx : gmap Key Row),
     index_by_keys rows key_columns = Ok idx →
     ∀ k, idx !! k = last (filter (λ r, key_of key_columns r = k) rows))
  ∧ index_by_keys [[("id", "1"); ("v", "a")]; [("id", "1"); ("v", "b")]] ["id"]
    = Ok {[ ["1"] := [("id", "1"); ("v", "b")] ]}.
Proof.
  split.
  - intros rows key_columns idx H k. by apply index_by_keys_lookup.
  - vm_compute. reflexivity.
Qed.

Lemma index_by_keys_last_write_wins_witness :
  let rows : list Row := [[("id", "1"); ("v", "a")]; [("id", "1"); ("v", "b")]] in
  index_by_keys rows ["id"] = Ok {[ ["1"] := [("id", "1"); ("v", "b")] ]}
  ∧ ({[ ["1"] := [("id", "1"); ("v", "b")] ]} : gmap Key Row) !! ["1"]
    = last (filter (λ r, key_of ["id"] r = ["1"]) rows).
Proof.
  split; [by vm_compute|].
  apply (proj1 index_by_keys_last_write_wins). by vm_compute.
Defined.

(** C3: for a non-empty sequence of rows and key columns that are all fields
    of its first row, the index has as many entries as there are distinct
    composite keys among the rows, and as many as there are rows when no two
    rows share a key. *)
Theorem index_by_keys_size (first : Row) (rest : list Row) (key_columns : list string) :
  (∀ col, col ∈ key_columns → col ∈ Dict.keys first) →
  ∃ idx,
    index_by_keys (first :: rest) key_columns = Ok idx
    ∧ size idx = length (remove_dups (key_of key_columns <$> first :: rest))
    ∧ (NoDup (key_of key_columns <$> first :: rest) →
       size idx = length (first :: rest)).
Proof.
  intros Hcols. eexists. split; [apply index_by_keys_ok; by apply Forall_forall|].
  rewrite <-size_dom, fill_index_dom, dom_empty_L, (right_id_L ∅ (∪)).
  split.
  - rewrite <-list_to_set_remove_dups.
    apply size_list_to_set, NoDup_remove_dups.
  - intros Hnd. by rewrite size_list_to_set, length_fmap.
Qed.

Lemma index_by_keys_size_witness :
  ∃ idx,
    index_by_keys [[("id", "1"); ("v", "a")]; [("id", "2"); ("v", "b")];
                   [("id", "1"); ("v", "c")]] ["id"] = Ok idx
    ∧ size idx = 2.
Proof.
  destruct (index_by_keys_size [("id", "1"); ("v", "a")]
              [[("id", "2"); ("v", "b")]; [("id", "1"); ("v", "c")]] ["id"])
    as (idx & Hidx & Hsize & _).
  - intros col ->%list_elem_of_singleton. by vm_compute; left.
  - exists idx. split; [exact Hidx|]. rewrite Hsize. by vm_compute.
Defined.

(** ** Running the monad *)

Lemma bind_ok {A B} (m : M A) (k : A → M B) w a w' :
  m w = (Ok a, w') → bind m k w = k a w'.
Proof. unfold bind. by intros ->. Qed.

Lemma bind_raise {A B} (m : M A) (k : A → M B) w e w' :
  m w = (Raise e, w') → bind m k w = (Raise e, w').
Proof. unfold bind. by intros ->. Qed.

Lemma world_eta (w : World) : mkWorld (files w) (stdout w) = w.
Proof. by destruct w. Qed.

Lemma read_csv_ok (path : string) (f : CsvFile) (w : World) :
  files w !! path = Some f → read_csv path w = (Ok (records f), w).
Proof. unfold read_csv. by intros ->. Qed.

(** ** Dicts *)

Lemma get_is_Some (r : Row) (col : string) :
  is_Some (Dict.get r col) ↔ col ∈ Dict.keys r.
Proof.
  unfold Dict.keys. induction r as [|[k v] r IH]; simpl.
  - rewrite is_Some_alt. split; [done | by intros ?%elem_of_nil].
  - rewrite elem_of_cons. case_decide; subst.
    + split; eauto.
    + rewrite IH. naive_solver.
Qed.

(** ** Writing files *)

Lemma filter_none {A} (P : A → Prop) `{!∀ x, Decision (P x)} (l : list A) :
  Forall (λ x, ¬ P x) l → filter P l = [].
Proof.
  induction 1 as [|x l Hx _ IH]; [done|].
  by rewrite filter_cons, decide_False.
Qed.

Lemma writerow_ok (path : string) (fns : list string) (r : Row) (f : CsvFile) (w : World) :
  Dict.keys r ⊆ fns →
  files w !! path = Some f →
  writerow path fns r w =
    (Ok tt,
     mkWorld (<[path := mkCsvFile (fieldnames f) (records f ++ [project fns r])]> (files w))
       (stdout w)).
Proof.
  intros Hsub Hf. unfold writerow.
  replace (filter (λ k, k ∉ fns) (Dict.keys r)) with (@nil string).
  - by rewrite (alter_alt_Some _ _ _ _ Hf).
  - symmetry. apply filter_none, Forall_forall. intros k Hk Hn. by apply Hn, Hsub.
Qed.

Lemma writerows_ok (path : string) (fns : list string) (rows : list Row)
    (f : CsvFile) (w : World) :
  uniform fns rows →
  files w !! path = Some f →
  writerows path fns rows w =
    (Ok tt,
     mkWorld
       (<[path := mkCsvFile (fieldnames f) (records f ++ (project fns <$> rows))]> (files w))
       (stdout w)).
Proof.
  unfold writerows. intros Hu. revert f w.
  induction Hu as [|r rows Hr _ IH]; intros f w Hf; simpl.
  - unfold ret. rewrite app_nil_r. destruct f. simpl.
    rewrite insert_id by done. by rewrite world_eta.
  - erewrite bind_ok by (by apply writerow_ok).
    erewrite IH by (simpl; apply lookup_insert_eq).
    simpl. by rewrite insert_insert_eq, <-app_assoc.
Qed.

Lemma export_ok (path : string) (fns : list string) (rows : list Row) (w : World) :
  uniform fns rows →
  export path fns rows w =
    (Ok tt, mkWorld (<[path := mkCsvFile fns (project fns <$> rows)]> (files w)) (stdout w)).
Proof.
  intros Hu. unfold export.
  erewrite bind_ok by reflexivity.
  erewrite bind_ok by reflexivity.
  simpl. rewrite alter_insert_eq.
  erewrite writerows_ok by (done || simpl; apply lookup_insert_eq).
  simpl. by rewrite insert_insert_eq.
Qed.

Lemma bind_inv_ok {A B} (m : M A) (k : A → M B) w b w' :
  bind m k w = (Ok b, w') → ∃ a w1, m w = (Ok a, w1) ∧ k a w1 = (Ok b, w').
Proof. unfold bind. destruct (m w) as [[a|e] w1]; [eauto | done]. Qed.

Lemma read_csv_inv (path : string) (f : CsvFile) (w w' : World) (rows : list Row) :
  files w !! path = Some f → read_csv path w = (Ok rows, w') → rows = records f ∧ w' = w.
Proof. intros Hf. rewrite (read_csv_ok _ _ _ Hf). by intros [= <- <-]. Qed.

Lemma uniform_filter (P : Row → Prop) `{!∀ r, Decision (P r)} fns (rows : list Row) :
  uniform fns rows → uniform fns (filter P rows).
Proof. unfold uniform. rewrite !Forall_forall. intros Hall r [_ Hr]%list_elem_of_filter. auto. Qed.

(** ** The filters *)

(** What is common to the four filters, for the predicate [P] the filter
    applies and the lines it prints *)
Ltac filter_returns Hf :=
  let H := fresh "Hrun" in
  intros H;
  apply bind_inv_ok in H as (rows & w1 & Hread & Hk);
  destruct (read_csv_inv _ _ _ _ _ Hf Hread) as [? ?]; subst rows w1;
  destruct (records _) as [|first rest];
  [ apply bind_inv_ok in Hk as (? & ? & _ & [= <- _]); done
  | case_decide; [done|];
    repeat match goal with
           | H : bind _ _ _ = (Ok _, _) |- _ => apply bind_inv_ok in H as (? & ? & _ & ?)
           end;
    match goal with H : ret _ _ = (Ok _, _) |- _ => by injection H as <- _ end ].

Lemma filter_rows_by_column_returns file_path column_name value output_path f w l w' :
  files w !! file_path = Some f →
  filter_rows_by_column file_path column_name value output_path w = (Ok l, w') →
  l = filter (λ r, Dict.get r column_name = Some value) (records f).
Proof. intros Hf. unfold filter_rows_by_column. filter_returns Hf. Qed.

Lemma filter_rows_by_column_value_returns file_path value matched_output unmatched_output
    f w l w' :
  files w !! file_path = Some f →
  filter_rows_by_column_value file_path value matched_output unmatched_output w = (Ok l, w') →
  l = (filter (λ r, Dict.get r "Attribute 2 value(s)" = Some value) (records f),
       filter (λ r, Dict.get r "Attribute 2 value(s)" ≠ Some value) (records f)).
Proof. intros Hf. unfold filter_rows_by_column_value. filter_returns Hf. Qed.

Lemma filter_rows_by_column_prefix_returns file_path column_name prefix output_path
    case_sensitive trim f w l w' :
  files w !! file_path = Some f →
  filter_rows_by_column_prefix file_path column_name prefix output_path case_sensitive trim w
    = (Ok l, w') →
  l = filter (λ r, starts prefix case_sensitive trim (Dict.get_or r column_name ""))
        (records f).
Proof. intros Hf. unfold filter_rows_by_column_prefix. filter_returns Hf. Qed.

Lemma filter_rows_name_matches_cuba_returns file_path output_path column_name f w l w' :
  files w !! file_path = Some f →
  filter_rows_name_matches_cuba file_path output_path column_name w = (Ok l, w') →
  l = filter (λ r, matches (Dict.get_or r column_name "")) (records f).
Proof. intros Hf. unfold filter_rows_name_matches_cuba. filter_returns Hf. Qed.

Ltac filter_runs Hf Hrows Hcol Hu :=
  erewrite bind_ok by (by apply read_csv_ok);
  rewrite Hrows; rewrite decide_False by (by intros ?);
  repeat (destruct (truthy _);
          [ erewrite bind_ok;
            [| erewrite bind_ok by (apply export_ok, uniform_filter; rewrite <-Hrows; exact Hu);
               reflexivity ]
          | erewrite bind_ok by reflexivity ]);
  eexists; reflexivity.

Lemma filter_rows_by_column_runs file_path column_name value output_path f first rest w :
  files w !! file_path = Some f →
  records f = first :: rest →
  column_name ∈ Dict.keys first →
  uniform (Dict.keys first) (records f) →
  ∃ w', filter_rows_by_column file_path column_name value output_path w
        = (Ok (filter (λ r, Dict.get r column_name = Some value) (records f)), w').
Proof.
  intros Hf Hrows Hcol Hu. unfold filter_rows_by_column. filter_runs Hf Hrows Hcol Hu.
Qed.

Lemma filter_rows_by_column_value_runs file_path value matched_output unmatched_output
    f first rest w :
  files w !! file_path = Some f →
  records f = first :: rest →
  "Attribute 2 value(s)" ∈ Dict.keys first →
  uniform (Dict.keys first) (records f) →
  ∃ w', filter_rows_by_column_value file_path value matched_output unmatched_output w
        = (Ok (filter (λ r, Dict.get r "Attribute 2 value(s)" = Some value) (records f),
               filter (λ r, Dict.get r "Attribute 2 value(s)" ≠ Some value) (records f)),
           w').
Proof.
  intros Hf Hrows Hcol Hu. unfold filter_rows_by_column_value.
  filter_runs Hf Hrows Hcol Hu.
Qed.

Lemma filter_rows_by_column_prefix_runs file_path column_name prefix output_path
    case_sensitive trim f first rest w :
  files w !! file_path = Some f →
  records f = first :: rest →
  column_name ∈ Dict.keys first →
  uniform (Dict.keys first) (records f) →
  ∃ w', filter_rows_by_column_prefix file_path column_name prefix output_path
          case_sensitive trim w
        = (Ok (filter (λ r, starts prefix case_sensitive trim (Dict.get_or r column_name ""))
                 (records f)), w').
Proof.
  intros Hf Hrows Hcol Hu. unfold filter_rows_by_column_prefix.
  filter_runs Hf Hrows Hcol Hu.
Qed.

Lemma filter_rows_name_matches_cuba_runs file_path output_path column_name f first rest w :
  files w !! file_path = Some f →
  records f = first :: rest →
  column_name ∈ Dict.keys first →
  uniform (Dict.keys first) (records f) →
  ∃ w', filter_rows_name_matches_cuba file_path output_path column_name w
        = (Ok (filter (λ r, matches (Dict.get_or r column_name "")) (records f)), w').
Proof.
  intros Hf Hrows Hcol Hu. unfold filter_rows_name_matches_cuba.
  filter_runs Hf Hrows Hcol Hu.
Qed.

(** Closed decidable facts, by evaluation *)
Ltac by_decide := apply (bool_decide_unpack _); vm_compute; exact I.

(** C10: every filter returns a subsequence of the rows of the file: the rows
    that satisfy its predicate, as they are and in their order.  The matched
    and the unmatched rows of [filter_rows_by_column_value] together are a
    rearrangement of the rows of the file.  On a file whose rows have the
    fields of the first row, the column among them, each filter returns; the
    prefix filter, which calls [str] methods on the value, when every row has
    a text in the column. *)
Theorem filters_return_subsequences (w : World) (file_path : string) (f : CsvFile) :
  files w !! file_path = Some f →
  (∀ column_name value output_path,
     (∀ l w', filter_rows_by_column file_path column_name value output_path w = (Ok l, w') →
              l `sublist_of` records f)
     ∧ (∀ first rest,
          records f = first :: rest → column_name ∈ Dict.keys first →
          uniform (Dict.keys first) (records f) →
          ∃ l w', filter_rows_by_column file_path column_name value output_path w
                  = (Ok l, w')))
  ∧ (∀ value matched_output unmatched_output,
       (∀ matched unmatched w',
          filter_rows_by_column_value file_path value matched_output unmatched_output w
            = (Ok (matched, unmatched), w') →
          matched `sublist_of` records f
          ∧ unmatched `sublist_of` records f
          ∧ matched ++ unmatched ≡ₚ records f)
       ∧ (∀ first rest,
            records f = first :: rest → "Attribute 2 value(s)" ∈ Dict.keys first →
            uniform (Dict.keys first) (records f) →
            ∃ l w',
              filter_rows_by_column_value file_path value matched_output unmatched_output w
              = (Ok l, w')))
  ∧ (∀ column_name prefix output_path case_sensitive trim,
       (∀ l w',
          filter_rows_by_column_prefix file_path column_name prefix output_path
            case_sensitive trim w = (Ok l, w') →
          l `sublist_of` records f)
       ∧ (∀ first rest,
            records f = first :: rest → column_name ∈ Dict.keys first →
            uniform (Dict.keys first) (records f) →
            filled [column_name] (records f) →
            ∃ l w',
              filter_rows_by_column_prefix file_path column_name prefix output_path
                case_sensitive trim w = (Ok l, w')))
  ∧ (∀ output_path column_name,
       (∀ l w', filter_rows_name_matches_cuba file_path output_path column_name w
                = (Ok l, w') →
                l `sublist_of` records f)
       ∧ (∀ first rest,
            records f = first :: rest → column_name ∈ Dict.keys first →
            uniform (Dict.keys first) (records f) →
            ∃ l w', filter_rows_name_matches_cuba file_path output_path column_name w
                    = (Ok l, w'))).
Proof.
  intros Hf. repeat split.
  - intros l w' ->%(filter_rows_by_column_returns _ _ _ _ _ _ _ _ Hf).
    apply sublist_filter.
  - intros first rest Hrows Hcol Hu.
    edestruct filter_rows_by_column_runs as [w' Hrun]; eauto.
  - apply (filter_rows_by_column_value_returns _ _ _ _ _ _ _ _ Hf) in H as [= -> ->].
    apply sublist_filter.
  - apply (filter_rows_by_column_value_returns _ _ _ _ _ _ _ _ Hf) in H as [= -> ->].
    apply sublist_filter.
  - apply (filter_rows_by_column_value_returns _ _ _ _ _ _ _ _ Hf) in H as [= -> ->].
    apply filter_app_complement.
  - intros first rest Hrows Hcol Hu.
    edestruct filter_rows_by_column_value_runs as [w' Hrun]; eauto.
  - intros l w' ->%(filter_rows_by_column_prefix_returns _ _ _ _ _ _ _ _ _ _ Hf).
    apply sublist_filter.
  - intros first rest Hrows Hcol Hu _.
    edestruct filter_rows_by_column_prefix_runs as [w' Hrun]; eauto.
  - intros l w' ->%(filter_rows_name_matches_cuba_returns _ _ _ _ _ _ _ Hf).
    apply sublist_filter.
  - intros first rest Hrows Hcol Hu.
    edestruct filter_rows_name_matches_cuba_runs as [w' Hrun]; eauto.
Qed.

Lemma filters_return_subsequences_witness :
  let rows : list Row :=
    [[("Name", "a"); ("Attribute 2 value(s)", "77")];
     [("Name", "b"); ("Attribute 2 value(s)", "78")];
     [("Name", "c"); ("Attribute 2 value(s)", "77")]] in
  let w := mkWorld {["data.csv" := mkCsvFile ["Name"; "Attribute 2 value(s)"] rows]} [] in
  ∃ matched unmatched w',
    filter_rows_by_column_value "data.csv" "77" None None w = (Ok (matched, unmatched), w')
    ∧ matched `sublist_of` rows
    ∧ matched ++ unmatched ≡ₚ rows.
Proof.
  intros rows w.
  destruct (filters_return_subsequences w "data.csv"
              (mkCsvFile ["Name"; "Attribute 2 value(s)"] rows) eq_refl)
    as (_ & Hvalue & _).
  destruct (Hvalue "77" None None) as [Hsub Hruns].
  destruct (Hruns [("Name", "a"); ("Attribute 2 value(s)", "77")]
              [[("Name", "b"); ("Attribute 2 value(s)", "78")];
               [("Name", "c"); ("Attribute 2 value(s)", "77")]])
    as ([matched unmatched] & w' & Hrun).
  - reflexivity.
  - by_decide.
  - by_decide.
  - exists matched, unmatched, w'. split; [exact Hrun|].
    destruct (Hsub _ _ _ Hrun) as (Hm & _ & Hp). by split.
Defined.

(** C8: on rows whose [Name] values are Cuba, Cuban Sandwich, Aruba and
    Cubalibre!, the token filter returns the first, the second and the fourth
    row and leaves the third out. *)
Theorem cuba_filter_example (w : World) (file_path : string) (f : CsvFile)
    (r1 r2 r3 r4 : Row) :
  files w !! file_path = Some f →
  records f = [r1; r2; r3; r4] →
  Dict.get r1 "Name" = Some "Cuba" →
  Dict.get r2 "Name" = Some "Cuban Sandwich" →
  Dict.get r3 "Name" = Some "Aruba" →
  Dict.get r4 "Name" = Some "Cubalibre!" →
  filter_rows_name_matches_cuba file_path None "Name" w = (Ok [r1; r2; r4], w)
  ∧ ∀ output_path l w',
      filter_rows_name_matches_cuba file_path output_path "Name" w = (Ok l, w') →
      l = [r1; r2; r4].
Proof.
  intros Hf Hrows H1 H2 H3 H4.
  assert (filter (λ r, matches (Dict.get_or r "Name" "")) (records f) = [r1; r2; r4])
    as Hfilter.
  { rewrite Hrows, !filter_cons, filter_nil. unfold Dict.get_or.
    rewrite H1, H2, H3, H4. reflexivity. }
  split.
  - unfold filter_rows_name_matches_cuba.
    erewrite bind_ok by (by apply read_csv_ok).
    rewrite <-Hfilter, Hrows. simpl.
    rewrite decide_False; [done|].
    intros Hn. apply Hn, get_is_Some. by rewrite H1.
  - intros output_path l w' ->%(filter_rows_name_matches_cuba_returns _ _ _ _ _ _ _ Hf).
    exact Hfilter.
Qed.

Lemma cuba_filter_example_witness :
  let rows : list Row := [[("Name", "Cuba")]; [("Name", "Cuban Sandwich")];
                          [("Name", "Aruba")]; [("Name", "Cubalibre!")]] in
  let w := mkWorld {["cuba.csv" := mkCsvFile ["Name"] rows]} [] in
  filter_rows_name_matches_cuba "cuba.csv" None "Name" w
  = (Ok [[("Name", "Cuba")]; [("Name", "Cuban Sandwich")]; [("Name", "Cubalibre!")]], w).
Proof.
  intros rows w.
  apply (cuba_filter_example w "cuba.csv" (mkCsvFile ["Name"] rows)
           [("Name", "Cuba")] [("Name", "Cuban Sandwich")] [("Name", "Aruba")]
           [("Name", "Cubalibre!")]); reflexivity.
Defined.

(** ** Validation of the compare columns *)

Section validation.

Context (file1 file2 : string) (first1 first2 : Row).

Lemma check_compare_columns_ok (compare_columns : list string) (w : World) :
  Forall (λ col, col ∈ Dict.keys first1 ∧ col ∈ Dict.keys first2) compare_columns →
  check_compare_columns file1 file2 first1 first2 compare_columns w = (Ok tt, w).
Proof.
  unfold check_compare_columns.
  induction 1 as [|col cols [H1 H2] _ IH]; [done|].
  simpl. rewrite !decide_False by (by intros ?).
  by erewrite bind_ok by reflexivity.
Qed.

(** The loop stops at the first column that one of the headers lacks, and
    changes nothing. *)
Lemma check_compare_columns_raises (compare_columns : list string) (w : World) :
  Exists (λ col, col ∉ Dict.keys first1 ∨ col ∉ Dict.keys first2) compare_columns →
  ∃ col file,
    col ∈ compare_columns
    ∧ (file = file1 ∧ col ∉ Dict.keys first1 ∨ file = file2 ∧ col ∉ Dict.keys first2)
    ∧ check_compare_columns file1 file2 first1 first2 compare_columns w
      = (Raise (ValueError (column_not_found col file)), w).
Proof.
  unfold check_compare_columns.
  induction compare_columns as [|col cols IH]; intros Hex; [by apply Exists_nil in Hex|].
  simpl. destruct (decide (col ∉ Dict.keys first1)) as [Hn1|Hin1].
  { exists col, file1. split_and!; [left | by left | done]. }
  destruct (decide (col ∉ Dict.keys first2)) as [Hn2|Hin2].
  { exists col, file2. split_and!; [left | by right | done]. }
  apply Exists_cons in Hex as [[?|?]|Hex]; [done..|].
  destruct (IH Hex) as (col' & file & Hcol & Hfile & Hrun).
  exists col', file. split_and!; [by right | done |].
  by erewrite bind_ok by reflexivity.
Qed.

End validation.

(** C4: with rows in both files and a compare column that the first row of
    one of them lacks, the run raises the [ValueError] that names such a
    column and the file, whatever the key columns are (they are looked at
    later), and leaves the files and the printed lines as they were. *)
Theorem compare_missing_column_raises
    (w : World) (file1 file2 : string) (f1 f2 : CsvFile) (first1 first2 : Row)
    (rest1 rest2 : list Row) (key_columns compare_columns : list string)
    (diff_output_path only_in_1_output only_in_2_output : option string) :
  files w !! file1 = Some f1 → records f1 = first1 :: rest1 →
  files w !! file2 = Some f2 → records f2 = first2 :: rest2 →
  (∃ col, col ∈ compare_columns
          ∧ (col ∉ Dict.keys first1 ∨ col ∉ Dict.keys first2)) →
  ∃ col file,
    col ∈ compare_columns
    ∧ (file = file1 ∧ col ∉ Dict.keys first1 ∨ file = file2 ∧ col ∉ Dict.keys first2)
    ∧ compare_csv_by_keys file1 file2 key_columns compare_columns
        diff_output_path only_in_1_output only_in_2_output w
      = (Raise (ValueError (column_not_found col file)), w).
Proof.
  intros Hf1 Hrows1 Hf2 Hrows2 Hex.
  destruct (check_compare_columns_raises file1 file2 first1 first2 compare_columns w)
    as (col & file & Hcol & Hfile & Hrun).
  { apply Exists_exists. destruct Hex as (col & ? & ?). eauto. }
  exists col, file. split_and!; [done..|].
  unfold compare_csv_by_keys.
  erewrite bind_ok by (by apply read_csv_ok).
  erewrite bind_ok by (by apply read_csv_ok).
  rewrite Hrows1, Hrows2.
  by erewrite bind_raise.
Qed.

Lemma compare_missing_column_raises_witness :
  let rowsA : list Row := [[("id", "1"); ("price", "10")]] in
  let rowsB : list Row := [[("id", "1"); ("cost", "10")]] in
  let w := mkWorld {["a.csv" := mkCsvFile ["id"; "price"] rowsA;
                     "b.csv" := mkCsvFile ["id"; "cost"] rowsB]} [] in
  ∃ col file,
    compare_csv_by_keys "a.csv" "b.csv" ["nokey"] ["id"; "price"]
      (Some "d.csv") (Some "o1.csv") (Some "o2.csv") w
    = (Raise (ValueError (column_not_found col file)), w).
Proof.
  intros rowsA rowsB w.
  destruct (compare_missing_column_raises w "a.csv" "b.csv"
              (mkCsvFile ["id"; "price"] rowsA) (mkCsvFile ["id"; "cost"] rowsB)
              [("id", "1"); ("price", "10")] [("id", "1"); ("cost", "10")] [] []
              ["nokey"] ["id"; "price"] (Some "d.csv") (Some "o1.csv") (Some "o2.csv"))
    as (col & file & _ & _ & Hrun); try reflexivity.
  - exists "price". split; [by_decide | right; by_decide].
  - by exists col, file.
Defined.

(** ** The text of the no-data line *)



(** ** Relations preserved by the runs *)

Section preserves.

Context (R : relation World) `{!PreOrder R}.

Lemma preserves_ret {A} (a : A) : preserves R (ret a).
Proof. intros w r w' [= _ <-]. done. Qed.

Lemma preserves_raise {A} (e : Exn) : preserves R (@raise A e).
Proof. intros w r w' [= _ <-]. done. Qed.

Lemma preserves_lift {A} (x : Result A) : preserves R (lift x).
Proof. intros w r w' [= _ <-]. done. Qed.

Lemma preserves_bind {A B} (m : M A) (k : A → M B) :
  preserves R m → (∀ a, preserves R (k a)) → preserves R (bind m k).
Proof.
  intros Hm Hk w r w'. unfold bind.
  destruct (m w) as [[a|e] w1] eqn:Em.
  - intros Hrun. transitivity w1; [by eapply Hm | by eapply Hk].
  - intros [= _ <-]. by eapply Hm.
Qed.

Lemma preserves_for_each {A} (xs : list A) (body : A → M unit) :
  (∀ x, preserves R (body x)) → preserves R (for_each xs body).
Proof.
  intros Hbody. induction xs as [|x xs IH]; simpl.
  - apply preserves_ret.
  - apply preserves_bind; [apply Hbody | done].
Qed.

Lemma preserves_for_acc {A S} (xs : list A) (acc : S) (body : A → S → M S) :
  (∀ x acc, preserves R (body x acc)) → preserves R (for_acc xs acc body).
Proof.
  intros Hbody. revert acc. induction xs as [|x xs IH]; intros acc; simpl.
  - apply preserves_ret.
  - apply preserves_bind; [apply Hbody | done].
Qed.

Lemma preserves_when (cond : bool) (body : M unit) :
  preserves R body → preserves R (when cond body).
Proof. destruct cond; [done | intros _; apply preserves_ret]. Qed.

Lemma preserves_getitem (idx : gmap Key Row) (k : Key) : preserves R (getitem idx k).
Proof.
  unfold getitem. destruct (idx !! k); [apply preserves_ret | apply preserves_raise].
Qed.

Lemma preserves_read_csv (path : string) : preserves R (read_csv path).
Proof.
  intros w r w'. unfold read_csv. by destruct (files w !! path); intros [= _ <-].
Qed.

(** The blocks of the reconciliation, from what the effects preserve when
    they write to the paths of [W] *)
Context (W : string → Prop).
Context (Hprint : ∀ l, preserves R (print l)).
Context (Hopen : ∀ p, W p → preserves R (open_w p)).
Context (Hheader : ∀ p fns, W p → preserves R (writeheader p fns)).
Context (Hrow : ∀ p fns r, W p → preserves R (writerow p fns r)).

Lemma preserves_export (path : string) (fns : list string) (rows : list Row) :
  W path → preserves R (export path fns rows).
Proof.
  intros Hp. unfold export, writerows.
  repeat (apply preserves_bind; [|intros _]); auto using preserves_for_each.
Qed.

Lemma preserves_export_only_in title idx first only output :
  (∀ p, truthy output = Some p → W p) →
  preserves R (export_only_in title idx first only output).
Proof.
  intros Hout. unfold export_only_in.
  apply preserves_when.
  apply preserves_bind; [apply Hprint | intros _].
  apply preserves_bind; [|intros _; apply Hprint].
  destruct (truthy output) as [p|].
  - repeat (apply preserves_bind; [|intros _]); auto.
    apply preserves_for_each. intros k.
    apply preserves_bind; [apply preserves_getitem | intros r].
    apply preserves_bind; [auto | intros _].
    apply preserves_bind; [apply preserves_getitem | intros r'].
    apply Hprint.
  - apply preserves_for_each. intros k.
    apply preserves_bind; [apply preserves_getitem | intros r].
    apply Hprint.
Qed.

Lemma preserves_collect_diffs key_columns compare_columns idx1 idx2 in_both :
  preserves R (collect_diffs key_columns compare_columns idx1 idx2 in_both).
Proof.
  unfold collect_diffs, diff_columns.
  apply preserves_for_acc. intros k acc.
  apply preserves_bind; [apply preserves_getitem | intros r1].
  apply preserves_bind; [apply preserves_getitem | intros r2].
  apply preserves_for_acc. intros col acc'.
  case_decide; [|apply preserves_ret].
  apply preserves_bind; [apply preserves_lift | intros row_out].
  apply preserves_bind; [apply Hprint | intros _].
  apply preserves_ret.
Qed.

Lemma preserves_check_compare_columns file1 file2 first1 first2 compare_columns :
  preserves R (check_compare_columns file1 file2 first1 first2 compare_columns).
Proof.
  apply preserves_for_each. intros col.
  repeat case_decide; auto using preserves_raise, preserves_ret.
Qed.

Lemma preserves_compare_csv_by_keys
    file1 file2 key_columns compare_columns diff_output_path only_in_1_output
    only_in_2_output f1 f2 w r w' :
  files w !! file1 = Some f1 → records f1 ≠ [] →
  files w !! file2 = Some f2 → records f2 ≠ [] →
  (∀ p, truthy diff_output_path = Some p → W p) →
  (∀ p, truthy only_in_1_output = Some p → W p) →
  (∀ p, truthy only_in_2_output = Some p → W p) →
  compare_csv_by_keys file1 file2 key_columns compare_columns
    diff_output_path only_in_1_output only_in_2_output w = (r, w') →
  R w w'.
Proof.
  intros Hf1 Hne1 Hf2 Hne2 Hd H1 H2. unfold compare_csv_by_keys.
  erewrite bind_ok by (by apply read_csv_ok).
  erewrite bind_ok by (by apply read_csv_ok).
  destruct (records f1) as [|first1 rest1]; [done|].
  destruct (records f2) as [|first2 rest2]; [done|].
  match goal with
  | |- ?m w = _ → _ => enough (preserves R m) as Hp by (intros Hrun; exact (Hp _ _ _ Hrun))
  end.
  apply preserves_bind; [apply preserves_check_compare_columns | intros _].
  apply preserves_bind; [apply preserves_lift | intros idx1].
  apply preserves_bind; [apply preserves_lift | intros idx2].
  apply preserves_bind; [by apply preserves_export_only_in | intros _].
  apply preserves_bind; [by apply preserves_export_only_in | intros _].
  apply preserves_bind; [apply preserves_collect_diffs | intros diff_rows].
  apply preserves_bind; [|intros _; apply preserves_when, Hprint].
  destruct (truthy diff_output_path) as [p|]; [|apply preserves_ret].
  destruct diff_rows; [apply Hprint|].
  apply preserves_bind; [by apply preserves_export; auto | intros _].
  apply Hprint.
Qed.

End preserves.

#[global] Instance written_preorder (S : string → Prop) : PreOrder (written S).
Proof.
  split.
  - by intros w p.
  - intros w1 w2 w3 H1 H2 p Hp. by rewrite H2, H1.
Qed.

(** ** What the reconciliation writes *)

Lemma print_written (S : string → Prop) (l : Line) : preserves (written S) (print l).
Proof. by intros w r w' [= _ <-] q Hq. Qed.

Lemma open_w_written (S : string → Prop) (p : string) :
  S p → preserves (written S) (open_w p).
Proof.
  intros Hp w r w' [= _ <-] q Hq. simpl.
  apply lookup_insert_ne. by intros ->.
Qed.

Lemma writeheader_written (S : string → Prop) (p : string) (fns : list string) :
  S p → preserves (written S) (writeheader p fns).
Proof.
  intros Hp w r w' [= _ <-] q Hq. simpl.
  apply lookup_alter_ne. by intros ->.
Qed.

Lemma writerow_written (S : string → Prop) (p : string) (fns : list string) (r : Row) :
  S p → preserves (written S) (writerow p fns r).
Proof.
  intros Hp w res w'. unfold writerow.
  destruct (filter _ _); intros [= _ <-]; [|reflexivity].
  intros q Hq. simpl. apply lookup_alter_ne. by intros ->.
Qed.

(** The paths a run may write to *)
Lemma compare_csv_by_keys_written
    file1 file2 key_columns compare_columns diff_output_path only_in_1_output
    only_in_2_output w r w' :
  compare_csv_by_keys file1 file2 key_columns compare_columns
    diff_output_path only_in_1_output only_in_2_output w = (r, w') →
  written (λ p, truthy diff_output_path = Some p ∨ truthy only_in_1_output = Some p
                ∨ truthy only_in_2_output = Some p) w w'.
Proof.
  destruct (files w !! file1) as [f1|] eqn:Hf1; cycle 1.
  { unfold compare_csv_by_keys, bind, read_csv. rewrite Hf1. by intros [= _ <-]. }
  destruct (files w !! file2) as [f2|] eqn:Hf2; cycle 1.
  { unfold compare_csv_by_keys, bind, read_csv. rewrite Hf1, Hf2. by intros [= _ <-]. }
  destruct (decide (records f1 = [])) as [He1|Hne1].
  { unfold compare_csv_by_keys, bind, read_csv. rewrite Hf1, Hf2, He1. by intros [= _ <-]. }
  destruct (decide (records f2 = [])) as [He2|Hne2].
  { unfold compare_csv_by_keys, bind, read_csv. rewrite Hf1, Hf2, He2.
    by destruct (records f1); intros [= _ <-]. }
  eapply (preserves_compare_csv_by_keys _
            (λ p, truthy diff_output_path = Some p ∨ truthy only_in_1_output = Some p
                  ∨ truthy only_in_2_output = Some p)); eauto;
    auto using print_written, open_w_written, writeheader_written, writerow_written.
Qed.

(** ** Sorted key sets *)

Lemma sorted_Permutation (s : gset Key) : sorted s ≡ₚ elements s.
Proof. apply merge_sort_Permutation. Qed.

Lemma elem_of_sorted (s : gset Key) (k : Key) : k ∈ sorted s ↔ k ∈ s.
Proof. by rewrite sorted_Permutation, elem_of_elements. Qed.

Lemma sorted_nil (s : gset Key) : sorted s = [] ↔ s = ∅.
Proof.
  rewrite <-Permutation_nil_r, sorted_Permutation, Permutation_nil_r.
  rewrite elements_empty_iff. by unfold_leibniz.
Qed.



(** ** The entries of an index *)

Lemma entries_cons (idx : gmap Key Row) (k : Key) (ks : list Key) (r : Row) :
  idx !! k = Some r → entries idx (k :: ks) = (k, r) :: entries idx ks.
Proof. intros Hk. unfold entries. simpl. by rewrite Hk. Qed.

Lemma entries_keys (idx : gmap Key Row) (ks : list Key) :
  Forall (λ k, is_Some (idx !! k)) ks → (entries idx ks).*1 = ks.
Proof.
  induction 1 as [|k ks [r Hk] _ IH]; [done|].
  rewrite (entries_cons _ _ _ _ Hk), fmap_cons. simpl. by f_equal.
Qed.

Lemma elem_of_entries (idx : gmap Key Row) (ks : list Key) (k : Key) (r : Row) :
  (k, r) ∈ entries idx ks ↔ k ∈ ks ∧ idx !! k = Some r.
Proof.
  unfold entries. rewrite list_elem_of_omap. split.
  - intros (k' & Hk' & Heq). destruct (idx !! k') eqn:E; simplify_eq/=. done.
  - intros [Hk Hr]. exists k. by rewrite Hr.
Qed.

(** ** The blocks for the rows only in one file *)

Section only_in.

Context (idx : gmap Key Row) (fns : list string).

Lemma print_loop_ok (ks : list Key) (w : World) :
  Forall (λ k, is_Some (idx !! k)) ks →
  for_each ks (λ k, r <- getitem idx k ;; print (KeyRow k r)) w
  = (Ok tt, mkWorld (files w) (stdout w ++ (uncurry KeyRow <$> entries idx ks))).
Proof.
  intros Hks. revert w. induction Hks as [|k ks [r Hk] _ IH]; intros w.
  - simpl. unfold ret. by rewrite app_nil_r, world_eta.
  - rewrite (entries_cons _ _ _ _ Hk). simpl. unfold getitem at 1. rewrite Hk.
    erewrite bind_ok by (erewrite bind_ok by reflexivity; reflexivity).
    rewrite IH. simpl. by rewrite <-app_assoc.
Qed.

Lemma write_loop_ok (path : string) (ks : list Key) (f : CsvFile) (w : World) :
  Forall (λ k, ∃ r, idx !! k = Some r ∧ Dict.keys r ⊆ fns) ks →
  files w !! path = Some f →
  for_each ks (λ k,
    r <- getitem idx k ;;
    writerow path fns r ;;;
    r <- getitem idx k ;;
    print (KeyRow k r)) w
  = (Ok tt,
     mkWorld
       (<[path := mkCsvFile (fieldnames f)
                    (records f ++ (project fns ∘ snd <$> entries idx ks))]> (files w))
       (stdout w ++ (uncurry KeyRow <$> entries idx ks))).
Proof.
  intros Hks. revert f w.
  induction Hks as [|k ks (r & Hk & Hr) _ IH]; intros f w Hf.
  - simpl. unfold ret. rewrite !app_nil_r. destruct f; simpl.
    by rewrite insert_id, world_eta.
  - rewrite (entries_cons _ _ _ _ Hk). simpl. unfold getitem at 1 2. rewrite Hk.
    erewrite bind_ok; cycle 1.
    { erewrite bind_ok by reflexivity.
      erewrite bind_ok by (by apply writerow_ok).
      erewrite bind_ok by reflexivity. reflexivity. }
    erewrite IH by (simpl; apply lookup_insert_eq).
    simpl. by rewrite insert_insert_eq, <-!app_assoc.
Qed.

End only_in.

Lemma export_only_in_ok (title : string) (idx : gmap Key Row) (first : Row)
    (only : gset Key) (output : option string) (w : World) :
  only ⊆ dom idx →
  (is_Some (truthy output) →
   ∀ k r, k ∈ only → idx !! k = Some r → Dict.keys r ⊆ Dict.keys first) →
  export_only_in title idx first only output w
  = (Ok tt,
     mkWorld (only_in_file first (entries idx (sorted only)) output (files w))
       (stdout w ++ only_in_lines title (entries idx (sorted only)))).
Proof.
  intros Hdom Hu.
  assert (Forall (λ k, is_Some (idx !! k)) (sorted only)) as Hks.
  { apply Forall_forall. intros k Hk%elem_of_sorted. by apply elem_of_dom, Hdom. }
  unfold export_only_in, when.
  case_bool_decide as Hne.
  - assert (entries idx (sorted only) ≠ []) as Hes.
    { intros Hnil. apply Hne, sorted_nil. by rewrite <-(entries_keys idx (sorted only) Hks), Hnil. }
    erewrite bind_ok by reflexivity.
    unfold only_in_file, only_in_lines.
    destruct (truthy output) as [path|] eqn:Hout.
    + erewrite bind_ok; cycle 1.
      { erewrite bind_ok by reflexivity.
        erewrite bind_ok by reflexivity.
        simpl. rewrite alter_insert_eq. simpl.
        apply write_loop_ok; [|simpl; apply lookup_insert_eq].
        apply Forall_forall. intros k Hk.
        pose proof (proj1 (Forall_forall _ _) Hks k Hk) as [r Hr].
        exists r. split; [done|].
        eapply Hu; [done | by apply elem_of_sorted | done]. }
      destruct (entries idx (sorted only)) as [|e es]; [done|].
      unfold print. simpl. by rewrite insert_insert_eq, <-!app_assoc.
    + erewrite bind_ok by (by apply print_loop_ok).
      destruct (entries idx (sorted only)) as [|e es]; [done|].
      unfold print. simpl. by rewrite <-!app_assoc.
  - subst only.
    replace (sorted ∅) with (@nil Key) by (symmetry; by apply sorted_nil).
    unfold ret, only_in_file, only_in_lines. simpl.
    destruct (truthy output); by rewrite app_nil_r, world_eta.
Qed.

(** ** The loop that collects the differences *)

Lemma keys_set (r : Row) (k v x : string) :
  x ∈ Dict.keys (Dict.set r k v) → x = k ∨ x ∈ Dict.keys r.
Proof.
  unfold Dict.keys. induction r as [|[k' v'] r IH]; simpl.
  - intros ->%list_elem_of_singleton. by left.
  - case_decide; subst; simpl; rewrite !elem_of_cons; naive_solver.
Qed.

Section diffs.

Context (key_columns compare_columns : list string).

Lemma key_fields_ok (k : Key) (i : nat) (row_out : Row) :
  length key_columns + i ≤ length k →
  key_fields i key_columns k row_out
  = Ok (foldl (λ row_out cv, Dict.set row_out cv.1 cv.2) row_out
          (zip key_columns (drop i k))).
Proof.
  revert i row_out. induction key_columns as [|c cols IH]; intros i row_out Hlen; [done|].
  simpl in Hlen. simpl key_fields.
  destruct (lookup_lt_is_Some_2 k i) as [v Hv]; [lia|].
  rewrite Hv, (drop_S _ _ _ Hv). simpl. apply IH. lia.
Qed.

Lemma make_row_out_ok (k : Key) (col v1 v2 : string) :
  length k = length key_columns →
  make_row_out key_columns k col v1 v2 = Ok (diff_row key_columns (mkDiff k col v1 v2)).
Proof.
  intros Hlen. unfold make_row_out. rewrite key_fields_ok by lia. by rewrite drop_0.
Qed.

Lemma diff_row_keys (d : Diff) :
  Dict.keys (diff_row key_columns d) ⊆ diff_fieldnames key_columns.
Proof.
  assert (∀ kvs row_out x,
            x ∈ Dict.keys (foldl (λ row_out cv, Dict.set row_out cv.1 cv.2) row_out kvs) →
            x ∈ kvs.*1 ∨ x ∈ Dict.keys row_out) as Hfold.
  { induction kvs as [|[c v] kvs IH]; intros row_out x; simpl; [by right|].
    intros [Hx|[->|Hx]%keys_set]%IH; rewrite elem_of_cons; auto. }
  intros x. unfold diff_row, diff_fieldnames.
  intros [->|[->|[->|[Hx|Hx]%Hfold]%keys_set]%keys_set]%keys_set;
    rewrite elem_of_app, !elem_of_cons; auto.
  - left. apply list_elem_of_fmap in Hx as ([c v] & -> & Hin).
    by eapply elem_of_zip_l.
Qed.

Lemma diff_columns_ok (k : Key) (r1 r2 : Row) (diff_rows : list Row) (w : World) :
  length k = length key_columns →
  diff_columns key_columns compare_columns k r1 r2 diff_rows w
  = (Ok (diff_rows ++ (diff_row key_columns <$> row_diffs compare_columns k r1 r2)),
     mkWorld (files w) (stdout w ++ (diff_line <$> row_diffs compare_columns k r1 r2))).
Proof.
  intros Hlen. unfold diff_columns, row_diffs. revert diff_rows w.
  induction compare_columns as [|col cols IH]; intros diff_rows w; simpl.
  - unfold ret. by rewrite !app_nil_r, world_eta.
  - destruct (decide (Dict.get_or r1 col "" ≠ Dict.get_or r2 col "")) as [Hne|Heq].
    + erewrite bind_ok; cycle 1.
      { erewrite bind_ok by (unfold lift; by rewrite make_row_out_ok).
        erewrite bind_ok by reflexivity. reflexivity. }
      rewrite IH. simpl. by rewrite <-!app_assoc.
    + erewrite bind_ok by reflexivity. by rewrite IH.
Qed.

Context (idx1 idx2 : gmap Key Row).

Lemma collect_loop_ok (ks : list Key) (diff_rows : list Row) (w : World) :
  Forall (λ k, is_Some (idx1 !! k) ∧ is_Some (idx2 !! k)
               ∧ length k = length key_columns) ks →
  for_acc ks diff_rows (λ k diff_rows,
    r1 <- getitem idx1 k ;;
    r2 <- getitem idx2 k ;;
    diff_columns key_columns compare_columns k r1 r2 diff_rows) w
  = (Ok (diff_rows
         ++ (diff_row key_columns <$> key_diffs compare_columns idx1 idx2 ks)),
     mkWorld (files w)
       (stdout w ++ (diff_line <$> key_diffs compare_columns idx1 idx2 ks))).
Proof.
  intros Hks. revert diff_rows w.
  induction Hks as [|k ks ([r1 Hr1] & [r2 Hr2] & Hlen) _ IH]; intros diff_rows w.
  - simpl. unfold ret. by rewrite !app_nil_r, world_eta.
  - simpl for_acc. unfold getitem at 1 2. rewrite Hr1, Hr2.
    erewrite bind_ok; cycle 1.
    { erewrite bind_ok by reflexivity.
      erewrite bind_ok by reflexivity.
      by apply diff_columns_ok. }
    rewrite IH. unfold key_diffs. simpl. rewrite Hr1, Hr2.
    by rewrite !fmap_app, <-!app_assoc.
Qed.

End diffs.

(** ** A run of the reconciliation on valid input *)

Lemma index_by_keys_key_length (rows : list Row) (key_columns : list string)
    (idx : gmap Key Row) (k : Key) :
  index_by_keys rows key_columns = Ok idx → k ∈ dom idx →
  length k = length key_columns.
Proof.
  intros Hidx. rewrite (index_by_keys_dom _ _ _ Hidx), elem_of_list_to_set.
  intros (r & -> & _)%list_elem_of_fmap. unfold key_of. by rewrite length_fmap.
Qed.

Lemma only_rows_nil (idx other : gmap Key Row) :
  only_rows idx other = [] ↔ dom idx ∖ dom other = ∅.
Proof.
  unfold only_rows. rewrite <-sorted_nil.
  assert (Forall (λ k, is_Some (idx !! k)) (sorted (dom idx ∖ dom other))) as Hks.
  { apply Forall_forall. intros k Hk%elem_of_sorted. apply elem_of_dom. set_solver. }
  split; intros Hnil.
  - by rewrite <-(entries_keys idx _ Hks), Hnil.
  - by rewrite Hnil.
Qed.

Lemma no_differences_cond (idx1 idx2 : gmap Key Row) (key_columns : list string)
    (diffs : list Diff) :
  bool_decide (dom idx1 ∖ dom idx2 = ∅) && bool_decide (dom idx2 ∖ dom idx1 = ∅)
  && bool_decide (diff_row key_columns <$> diffs = [])
  = match only_rows idx1 idx2, only_rows idx2 idx1, diffs with
    | [], [], [] => true
    | _, _, _ => false
    end.
Proof.
  rewrite <-!(bool_decide_ext _ _ (only_rows_nil _ _)).
  destruct (only_rows idx1 idx2), (only_rows idx2 idx1), diffs; done.
Qed.

Lemma when_print_ok (cond : bool) (l : Line) (w : World) :
  when cond (print l) w
  = (Ok tt, mkWorld (files w) (stdout w ++ if cond then [l] else [])).
Proof. destruct cond; simpl; [done|]. unfold ret. by rewrite app_nil_r, world_eta. Qed.

Lemma compare_csv_by_keys_ok
    (w : World) (file1 file2 : string) (f1 f2 : CsvFile) (first1 first2 : Row)
    (rest1 rest2 : list Row) (key_columns compare_columns : list string)
    (diff_output_path only_in_1_output only_in_2_output : option string)
    (idx1 idx2 : gmap Key Row) :
  files w !! file1 = Some f1 → records f1 = first1 :: rest1 →
  files w !! file2 = Some f2 → records f2 = first2 :: rest2 →
  Forall (λ col, col ∈ Dict.keys first1 ∧ col ∈ Dict.keys first2) compare_columns →
  index_by_keys (records f1) key_columns = Ok idx1 →
  index_by_keys (records f2) key_columns = Ok idx2 →
  (is_Some (truthy only_in_1_output) →
   ∀ k r, k ∈ dom idx1 ∖ dom idx2 → idx1 !! k = Some r →
          Dict.keys r ⊆ Dict.keys first1) →
  (is_Some (truthy only_in_2_output) →
   ∀ k r, k ∈ dom idx2 ∖ dom idx1 → idx2 !! k = Some r →
          Dict.keys r ⊆ Dict.keys first2) →
  compare_csv_by_keys file1 file2 key_columns compare_columns
    diff_output_path only_in_1_output only_in_2_output w
  = (Ok tt,
     compared first1 first2 idx1 idx2 key_columns compare_columns
       diff_output_path only_in_1_output only_in_2_output w).
Proof.
  intros Hf1 Hrows1 Hf2 Hrows2 Hcc Hidx1 Hidx2 Hu1 Hu2.
  unfold compare_csv_by_keys.
  erewrite bind_ok by (by apply read_csv_ok).
  erewrite bind_ok by (by apply read_csv_ok).
  rewrite Hrows1, Hrows2 in *.
  erewrite bind_ok by (by apply check_compare_columns_ok).
  erewrite bind_ok by (unfold lift; by rewrite Hidx1).
  erewrite bind_ok by (unfold lift; by rewrite Hidx2).
  erewrite bind_ok by (apply export_only_in_ok; [set_solver | done]).
  erewrite bind_ok by (apply export_only_in_ok; [set_solver | done]).
  erewrite bind_ok; cycle 1.
  { apply collect_loop_ok, Forall_forall.
    intros k [Hk1 Hk2]%elem_of_sorted%elem_of_intersection. split_and!.
    - by apply elem_of_dom.
    - by apply elem_of_dom.
    - by eapply index_by_keys_key_length. }
  fold (only_rows idx1 idx2) (only_rows idx2 idx1)
    (all_diffs compare_columns idx1 idx2).
  rewrite app_nil_l, no_differences_cond.
  unfold compared, diff_file, closing_lines.
  fold (diff_fieldnames key_columns).
  destruct (truthy diff_output_path) as [path|].
  - destruct (all_diffs compare_columns idx1 idx2) as [|d ds] eqn:Hdiffs.
    + erewrite bind_ok by reflexivity.
      rewrite when_print_ok. simpl.
      rewrite <-!app_assoc. repeat f_equal.
      by destruct (only_rows idx1 idx2), (only_rows idx2 idx1).
    + rewrite fmap_cons.
      erewrite bind_ok; cycle 1.
      { erewrite bind_ok; [reflexivity|].
        apply export_ok, Forall_forall.
        intros r [->|(d' & -> & _)%list_elem_of_fmap]%elem_of_cons;
          apply diff_row_keys. }
      rewrite when_print_ok.
      rewrite <-fmap_cons, length_fmap, <-list_fmap_compose. simpl.
      rewrite <-!app_assoc. repeat f_equal.
      by destruct (only_rows idx1 idx2), (only_rows idx2 idx1).
  - erewrite bind_ok by reflexivity.
    rewrite when_print_ok. simpl.
    rewrite <-!app_assoc. repeat f_equal.
    by destruct (only_rows idx1 idx2), (only_rows idx2 idx1),
         (all_diffs compare_columns idx1 idx2).
Qed.



Lemma index_by_keys_elem_of (rows : list Row) (key_columns : list string)
    (idx : gmap Key Row) (k : Key) (r : Row) :
  index_by_keys rows key_columns = Ok idx → idx !! k = Some r →
  r ∈ rows ∧ key_of key_columns r = k.
Proof.
  intros Hidx. rewrite (index_by_keys_lookup _ _ _ _ Hidx).
  intros Hlast%last_Some_elem_of%list_elem_of_filter. naive_solver.
Qed.

(** On two files with rows, each with the fields of its first row, and with
    key and compare columns among the fields of both first rows, the run
    returns and leaves the world [compared]. *)
Lemma compare_csv_by_keys_uniform
    (w : World) (file1 file2 : string) (f1 f2 : CsvFile) (first1 first2 : Row)
    (rest1 rest2 : list Row) (key_columns compare_columns : list string)
    (diff_output_path only_in_1_output only_in_2_output : option string) :
  files w !! file1 = Some f1 → records f1 = first1 :: rest1 →
  files w !! file2 = Some f2 → records f2 = first2 :: rest2 →
  (∀ col, col ∈ key_columns ++ compare_columns →
          col ∈ Dict.keys first1 ∧ col ∈ Dict.keys first2) →
  uniform (Dict.keys first1) (records f1) →
  uniform (Dict.keys first2) (records f2) →
  ∃ idx1 idx2,
    index_by_keys (records f1) key_columns = Ok idx1
    ∧ index_by_keys (records f2) key_columns = Ok idx2
    ∧ compare_csv_by_keys file1 file2 key_columns compare_columns
        diff_output_path only_in_1_output only_in_2_output w
      = (Ok tt,
         compared first1 first2 idx1 idx2 key_columns compare_columns
           diff_output_path only_in_1_output only_in_2_output w).
Proof.
  intros Hf1 Hrows1 Hf2 Hrows2 Hcols Hu1 Hu2.
  assert (index_by_keys (records f1) key_columns
          = Ok (fill_index key_columns (records f1) ∅)) as Hidx1.
  { rewrite Hrows1. apply index_by_keys_ok, Forall_forall.
    intros col Hcol. apply Hcols, elem_of_app. by left. }
  assert (index_by_keys (records f2) key_columns
          = Ok (fill_index key_columns (records f2) ∅)) as Hidx2.
  { rewrite Hrows2. apply index_by_keys_ok, Forall_forall.
    intros col Hcol. apply Hcols, elem_of_app. by left. }
  eexists _, _. split_and!; [done..|].
  eapply compare_csv_by_keys_ok; eauto.
  - apply Forall_forall. intros col Hcol. apply Hcols, elem_of_app. by right.
  - intros _ k r _ [Hr _]%(index_by_keys_elem_of _ _ _ _ _ Hidx1).
    by eapply Forall_forall in Hu1.
  - intros _ k r _ [Hr _]%(index_by_keys_elem_of _ _ _ _ _ Hidx2).
    by eapply Forall_forall in Hu2.
Qed.

(** C1: with the rows (1, 10), (2, 20) in the first file and (2, 25), (3, 30)
    in the second, key column [id] and compare column [price], the run
    reports the row (1, 10) as only in file 1, the row (3, 30) as only in
    file 2, and the one difference of key 2 in column [price], 20 against 25;
    with the three output paths given it writes exactly these rows. *)
Theorem compare_example
    (w : World) (file1 file2 : string) (h1 h2 : list string)
    (diff_output_path only_in_1_output only_in_2_output : string) :
  let a1 : Row := [("id", "1"); ("price", "10")] in
  let a2 : Row := [("id", "2"); ("price", "20")] in
  let b2 : Row := [("id", "2"); ("price", "25")] in
  let b3 : Row := [("id", "3"); ("price", "30")] in
  files w !! file1 = Some (mkCsvFile h1 [a1; a2]) →
  files w !! file2 = Some (mkCsvFile h2 [b2; b3]) →
  diff_output_path ≠ "" → only_in_1_output ≠ "" → only_in_2_output ≠ "" →
  compare_csv_by_keys file1 file2 ["id"] ["price"]
    (Some diff_output_path) (Some only_in_1_output) (Some only_in_2_output) w
  = (Ok tt,
     mkWorld
       (<[diff_output_path :=
            mkCsvFile ["id"; "column"; "value_file1"; "value_file2"]
              [[("id", "2"); ("column", "price"); ("value_file1", "20");
                ("value_file2", "25")]]]>
          (<[only_in_2_output := mkCsvFile ["id"; "price"] [b3]]>
             (<[only_in_1_output := mkCsvFile ["id"; "price"] [a1]]> (files w))))
       (stdout w
        ++ [Text "Rows only in file1:"; KeyRow ["1"] a1; dashes;
            Text "Rows only in file2:"; KeyRow ["3"] b3; dashes;
            DiffLine ["2"] "price" "20" "25";
            WroteDiffs 1 diff_output_path])).
Proof.
  intros a1 a2 b2 b3 Hf1 Hf2 Hd H1 H2.
  destruct (compare_csv_by_keys_uniform w file1 file2 _ _ a1 b2 [a2] [b3]
              ["id"] ["price"] (Some diff_output_path) (Some only_in_1_output)
              (Some only_in_2_output) Hf1 eq_refl Hf2)
    as (idx1 & idx2 & Hidx1 & Hidx2 & ->);
    [done | apply Forall_forall; by_decide | by_decide..|].
  injection Hidx1 as <-. injection Hidx2 as <-.
  unfold compared, diff_file, only_in_file, closing_lines, truthy.
  destruct diff_output_path, only_in_1_output, only_in_2_output; try done.
Qed.

Lemma compare_example_witness :
  let a1 : Row := [("id", "1"); ("price", "10")] in
  let a2 : Row := [("id", "2"); ("price", "20")] in
  let b2 : Row := [("id", "2"); ("price", "25")] in
  let b3 : Row := [("id", "3"); ("price", "30")] in
  let w := mkWorld {["file1.csv" := mkCsvFile ["id"; "price"] [a1; a2];
                     "file2.csv" := mkCsvFile ["id"; "price"] [b2; b3]]} [] in
  compare_csv_by_keys "file1.csv" "file2.csv" ["id"] ["price"]
    (Some "differences.csv") (Some "only_in_file1.csv") (Some "only_in_file2.csv") w
  = (Ok tt,
     mkWorld
       (<["differences.csv" :=
            mkCsvFile ["id"; "column"; "value_file1"; "value_file2"]
              [[("id", "2"); ("column", "price"); ("value_file1", "20");
                ("value_file2", "25")]]]>
          (<["only_in_file2.csv" := mkCsvFile ["id"; "price"] [b3]]>
             (<["only_in_file1.csv" := mkCsvFile ["id"; "price"] [a1]]> (files w))))
       [Text "Rows only in file1:"; KeyRow ["1"] a1; dashes;
        Text "Rows only in file2:"; KeyRow ["3"] b3; dashes;
        DiffLine ["2"] "price" "20" "25";
        WroteDiffs 1 "differences.csv"]).
Proof.
  intros a1 a2 b2 b3 w.
  apply (compare_example w "file1.csv" "file2.csv" ["id"; "price"] ["id"; "price"]
           "differences.csv" "only_in_file1.csv" "only_in_file2.csv"); done.
Defined.

(** ** The order of the output *)


Lemma ascending_key_le (ks : list Key) : ascending ks → StronglySorted key_le ks.
Proof.
  induction 1 as [|k ks _ IH Hall]; constructor; [done|].
  eapply Forall_impl; [done|]. intros k' Hlt. by apply tuple_lt_asym.
Qed.



Section diff_order.

Context (compare_columns : list string) (idx1 idx2 : gmap Key Row).







End diff_order.



(** ** Reconciling a file with itself *)






(** ** No file for an empty set of keys *)

Lemma export_only_in_empty (title : string) (idx : gmap Key Row) (first : Row)
    (output : option string) :
  export_only_in title idx first ∅ output = ret tt.
Proof. unfold export_only_in. by rewrite bool_decide_false by (by intros ?). Qed.

Lemma covered_keys (rows1 rows2 : list Row) (key_columns : list string)
    (idx1 idx2 : gmap Key Row) :
  index_by_keys rows1 key_columns = Ok idx1 →
  index_by_keys rows2 key_columns = Ok idx2 →
  (∀ r, r ∈ rows1 → ∃ r', r' ∈ rows2 ∧ key_of key_columns r' = key_of key_columns r) →
  dom idx1 ∖ dom idx2 = ∅.
Proof.
  intros Hidx1 Hidx2 Hcov.
  rewrite (index_by_keys_dom _ _ _ Hidx1), (index_by_keys_dom _ _ _ Hidx2).
  apply set_eq. intros k.
  rewrite elem_of_difference, !elem_of_list_to_set, !list_elem_of_fmap.
  split; [|by intros ?%elem_of_empty].
  intros [(r & -> & Hr) Hn]. destruct Hn.
  destruct (Hcov r Hr) as (r' & Hr' & Hkey). eauto.
Qed.

Lemma bind_ext {A B} (m : M A) (k1 k2 : A → M B) (w : World) :
  (∀ a w', m w = (Ok a, w') → k1 a w' = k2 a w') → bind m k1 w = bind m k2 w.
Proof. intros Hk. unfold bind. destruct (m w) as [[a|e] w']; [by apply Hk | done]. Qed.

Lemma lift_inv {A} (x : Result A) (a : A) (w w' : World) :
  lift x w = (Ok a, w') → x = Ok a ∧ w' = w.
Proof. unfold lift. by intros [= -> ->]. Qed.

(** The run does not depend on the path for the rows only in file 1 when
    every key of file 1 is a key of file 2, and likewise for file 2. *)
Lemma compare_csv_by_keys_covered
    (w : World) (file1 file2 : string) (f1 f2 : CsvFile)
    (key_columns compare_columns : list string)
    (diff_output_path only_in_1_output only_in_2_output : option string) :
  files w !! file1 = Some f1 → files w !! file2 = Some f2 →
  ((∀ r, r ∈ records f1 →
         ∃ r', r' ∈ records f2 ∧ key_of key_columns r' = key_of key_columns r) →
   compare_csv_by_keys file1 file2 key_columns compare_columns
     diff_output_path only_in_1_output only_in_2_output w
   = compare_csv_by_keys file1 file2 key_columns compare_columns
       diff_output_path None only_in_2_output w)
  ∧ ((∀ r, r ∈ records f2 →
           ∃ r', r' ∈ records f1 ∧ key_of key_columns r' = key_of key_columns r) →
     compare_csv_by_keys file1 file2 key_columns compare_columns
       diff_output_path only_in_1_output only_in_2_output w
     = compare_csv_by_keys file1 file2 key_columns compare_columns
         diff_output_path only_in_1_output None w).
Proof.
  intros Hf1 Hf2. unfold compare_csv_by_keys.
  erewrite !(bind_ok (read_csv file1)) by (by apply read_csv_ok).
  erewrite !(bind_ok (read_csv file2)) by (by apply read_csv_ok).
  destruct (records f1) as [|first1 rest1] eqn:Hrows1; [done|].
  destruct (records f2) as [|first2 rest2] eqn:Hrows2; [done|].
  split; intros Hcov.
  - apply bind_ext. intros [] w1 _.
    apply bind_ext. intros idx1 w2 [Hidx1 _]%lift_inv.
    apply bind_ext. intros idx2 w3 [Hidx2 _]%lift_inv.
    by rewrite (covered_keys _ _ _ _ _ Hidx1 Hidx2 Hcov), !export_only_in_empty.
  - apply bind_ext. intros [] w1 _.
    apply bind_ext. intros idx1 w2 [Hidx1 _]%lift_inv.
    apply bind_ext. intros idx2 w3 [Hidx2 _]%lift_inv.
    apply bind_ext. intros [] w4 _.
    by rewrite (covered_keys _ _ _ _ _ Hidx2 Hidx1 Hcov), !export_only_in_empty.
Qed.

(** C9: when every key of the rows of file 1 is a key of a row of file 2,
    the run is the run without a path for the rows only in file 1: the block
    that opens that file is skipped.  So the file at that path, unless the
    same path is given for another output, is as it was before the run: not
    created if it did not exist, not even with a header.  The same holds for
    file 2 with the roles exchanged. *)
Theorem only_in_file_not_created
    (w : World) (file1 file2 : string) (f1 f2 : CsvFile)
    (key_columns compare_columns : list string)
    (diff_output_path only_in_1_output only_in_2_output : option string) :
  files w !! file1 = Some f1 → files w !! file2 = Some f2 →
  let run := compare_csv_by_keys file1 file2 key_columns compare_columns in
  ((∀ r, r ∈ records f1 →
         ∃ r', r' ∈ records f2 ∧ key_of key_columns r' = key_of key_columns r) →
   run diff_output_path only_in_1_output only_in_2_output w
   = run diff_output_path None only_in_2_output w
   ∧ ∀ path,
       only_in_1_output = Some path →
       truthy diff_output_path ≠ Some path → truthy only_in_2_output ≠ Some path →
       files (run diff_output_path only_in_1_output only_in_2_output w).2 !! path
       = files w !! path)
  ∧ ((∀ r, r ∈ records f2 →
           ∃ r', r' ∈ records f1 ∧ key_of key_columns r' = key_of key_columns r) →
     run diff_output_path only_in_1_output only_in_2_output w
     = run diff_output_path only_in_1_output None w
     ∧ ∀ path,
         only_in_2_output = Some path →
         truthy diff_output_path ≠ Some path → truthy only_in_1_output ≠ Some path →
         files (run diff_output_path only_in_1_output only_in_2_output w).2 !! path
         = files w !! path).
Proof.
  intros Hf1 Hf2 run. subst run.
  destruct (compare_csv_by_keys_covered w file1 file2 f1 f2 key_columns compare_columns
              diff_output_path only_in_1_output only_in_2_output Hf1 Hf2) as [H1 H2].
  split; intros Hcov.
  - split; [by apply H1|]. intros path _ Hd Ho. rewrite (H1 Hcov).
    destruct (compare_csv_by_keys _ _ _ _ _ None _ w) as [r w'] eqn:Hrun.
    apply compare_csv_by_keys_written in Hrun. apply Hrun. simpl. naive_solver.
  - split; [by apply H2|]. intros path _ Hd Ho. rewrite (H2 Hcov).
    destruct (compare_csv_by_keys _ _ _ _ _ _ None w) as [r w'] eqn:Hrun.
    apply compare_csv_by_keys_written in Hrun. apply Hrun. simpl. naive_solver.
Qed.

Lemma only_in_file_not_created_witness :
  let rowsA : list Row := [[("id", "1"); ("price", "10")]; [("id", "2"); ("price", "20")]] in
  let rowsB : list Row := [[("id", "2"); ("price", "20")]; [("id", "3"); ("price", "30")];
                           [("id", "1"); ("price", "10")]] in
  let w := mkWorld {["a.csv" := mkCsvFile ["id"; "price"] rowsA;
                     "b.csv" := mkCsvFile ["id"; "price"] rowsB]} [] in
  files (compare_csv_by_keys "a.csv" "b.csv" ["id"] ["price"]
           (Some "d.csv") (Some "o1.csv") (Some "o2.csv") w).2 !! "o1.csv"
  = None.
Proof.
  intros rowsA rowsB w.
  destruct (only_in_file_not_created w "a.csv" "b.csv"
              (mkCsvFile ["id"; "price"] rowsA) (mkCsvFile ["id"; "price"] rowsB)
              ["id"] ["price"] (Some "d.csv") (Some "o1.csv") (Some "o2.csv")
              eq_refl eq_refl) as [[_ Hkeep] _].
  - intros r [Hr|Hr%list_elem_of_singleton]%elem_of_cons; subst r.
    + exists [("id", "1"); ("price", "10")]. split; [by_decide | reflexivity].
    + exists [("id", "2"); ("price", "20")]. split; [by_decide | reflexivity].
  - apply (Hkeep "o1.csv"); [reflexivity | by_decide | by_decide].
Defined.

(** * Further properties of the filters *)

(** X1: on a file with rows whose first row lacks the column, each filter
    raises the [ValueError] that names the column and the file; nothing is
    printed and no file is written, whatever output paths are given.  Only the
    first row is looked at. *)
Theorem filters_missing_column
    (w : World) (file_path : string) (f : CsvFile) (first : Row) (rest : list Row)
    (column_name : string) :
  files w !! file_path = Some f → records f = first :: rest →
  column_name ∉ Dict.keys first →
  (∀ value output_path,
     filter_rows_by_column file_path column_name value output_path w
     = (Raise (ValueError (column_not_found column_name file_path)), w))
  ∧ (column_name = "Attribute 2 value(s)" →
     ∀ value matched_output unmatched_output,
       filter_rows_by_column_value file_path value matched_output unmatched_output w
       = (Raise (ValueError (column_not_found column_name file_path)), w))
  ∧ (∀ prefix output_path case_sensitive trim,
       filter_rows_by_column_prefix file_path column_name prefix output_path
         case_sensitive trim w
       = (Raise (ValueError (column_not_found column_name file_path)), w))
  ∧ (∀ output_path,
       filter_rows_name_matches_cuba file_path output_path column_name w
       = (Raise (ValueError (column_not_found column_name file_path)), w)).
Proof.
  intros Hf Hrows Hcol. split_and!.
  - intros value output_path. unfold filter_rows_by_column.
    erewrite bind_ok by (by apply read_csv_ok). by rewrite Hrows, decide_True.
  - intros -> value matched_output unmatched_output. unfold filter_rows_by_column_value.
    erewrite bind_ok by (by apply read_csv_ok). by rewrite Hrows, decide_True.
  - intros prefix output_path case_sensitive trim. unfold filter_rows_by_column_prefix.
    erewrite bind_ok by (by apply read_csv_ok). by rewrite Hrows, decide_True.
  - intros output_path. unfold filter_rows_name_matches_cuba.
    erewrite bind_ok by (by apply read_csv_ok). by rewrite Hrows, decide_True.
Qed.

Lemma filters_missing_column_witness :
  let rows : list Row := [[("Name", "a")]; [("Name", "b"); ("brand", "Zyn")]] in
  let w := mkWorld {["data.csv" := mkCsvFile ["Name"] rows]} [] in
  filter_rows_by_column "data.csv" "brand" "Zyn" (Some "out.csv") w
  = (Raise (ValueError "Column 'brand' not found in data.csv"), w).
Proof.
  intros rows w.
  refine (proj1 (filters_missing_column w "data.csv" (mkCsvFile ["Name"] rows)
                   [("Name", "a")] [[("Name", "b"); ("brand", "Zyn")]] "brand"
                   eq_refl eq_refl _) "Zyn" (Some "out.csv")).
  by_decide.
Defined.

(** X2: on a file without rows each filter returns the empty result without
    raising, whatever the column is: it prints that the file has no rows and
    writes no file, even when an output path is given. *)
Theorem filters_empty_file (w : World) (file_path : string) (f : CsvFile) :
  files w !! file_path = Some f → records f = [] →
  (∀ column_name value output_path,
     filter_rows_by_column file_path column_name value output_path w
     = (Ok [], mkWorld (files w) (stdout w ++ [Text "No rows in file."])))
  ∧ (∀ value matched_output unmatched_output,
       filter_rows_by_column_value file_path value matched_output unmatched_output w
       = (Ok ([], []), mkWorld (files w) (stdout w ++ [Text "No rows in file"])))
  ∧ (∀ column_name prefix output_path case_sensitive trim,
       filter_rows_by_column_prefix file_path column_name prefix output_path
         case_sensitive trim w
       = (Ok [], mkWorld (files w) (stdout w ++ [Text "No rows in file."])))
  ∧ (∀ output_path column_name,
       filter_rows_name_matches_cuba file_path output_path column_name w
       = (Ok [], mkWorld (files w) (stdout w ++ [Text "No rows in file."]))).
Proof.
  intros Hf Hrows. split_and!; intros.
  - unfold filter_rows_by_column.
    erewrite bind_ok by (by apply read_csv_ok). by rewrite Hrows.
  - unfold filter_rows_by_column_value.
    erewrite bind_ok by (by apply read_csv_ok). by rewrite Hrows.
  - unfold filter_rows_by_column_prefix.
    erewrite bind_ok by (by apply read_csv_ok). by rewrite Hrows.
  - unfold filter_rows_name_matches_cuba.
    erewrite bind_ok by (by apply read_csv_ok). by rewrite Hrows.
Qed.

Lemma filters_empty_file_witness :
  let w := mkWorld {["data.csv" := mkCsvFile ["Name"] []]} [] in
  filter_rows_by_column_prefix "data.csv" "nocolumn" "77" (Some "out.csv") false true w
  = (Ok [], mkWorld (files w) [Text "No rows in file."]).
Proof.
  intros w.
  exact (proj1 (proj2 (proj2 (filters_empty_file w "data.csv" (mkCsvFile ["Name"] [])
                                eq_refl eq_refl)))
           "nocolumn" "77" (Some "out.csv") false true).
Defined.

(** ** Writing and reading back *)

Lemma project_id (fns : list string) (r : Row) :
  NoDup fns → Dict.keys r = fns → project fns r = r.
Proof.
  intros Hnd <-. unfold project, Dict.keys in *.
  induction r as [|[k v] r IH]; [done|].
  apply NoDup_cons in Hnd as [Hk Hnd]. simpl.
  unfold Dict.get_or at 1. simpl. rewrite decide_True by done. simpl. f_equal.
  rewrite <-(IH Hnd) at 2. apply list_fmap_ext. intros _ f Hf%list_elem_of_lookup_2.
  unfold Dict.get_or. simpl. rewrite decide_False; [done|]. by intros ->.
Qed.

Lemma tabular_uniform (fns : list string) (rows : list Row) :
  tabular fns rows → uniform fns rows.
Proof. intros [_ H]. eapply Forall_impl; [done|]. by intros r ->. Qed.

Lemma tabular_project (fns : list string) (rows : list Row) :
  tabular fns rows → project fns <$> rows = rows.
Proof.
  intros [Hnd H]. induction H as [|r rows Hr _ IH]; [done|].
  rewrite fmap_cons. by rewrite IH, project_id.
Qed.

Lemma tabular_filter (P : Row → Prop) `{!∀ r, Decision (P r)} fns (rows : list Row) :
  tabular fns rows → tabular fns (filter P rows).
Proof.
  intros [Hnd Hall]. split; [done|]. rewrite Forall_forall in *.
  intros r [_ Hr]%list_elem_of_filter. auto.
Qed.

Lemma truthy_Some (path : string) : path ≠ "" → truthy (Some path) = Some path.
Proof. by destruct path. Qed.

Lemma export_tabular (path : string) (fns : list string) (rows : list Row) (w : World) :
  tabular fns rows →
  export path fns rows w
  = (Ok tt, mkWorld (<[path := mkCsvFile fns rows]> (files w)) (stdout w)).
Proof.
  intros Ht. rewrite export_ok by (by apply tabular_uniform).
  by rewrite tabular_project.
Qed.

Ltac filter_exports Hf Hrows Hcol Ht :=
  erewrite bind_ok by (by apply read_csv_ok);
  rewrite Hrows; rewrite decide_False by (by intros ?);
  rewrite ?truthy_Some by done;
  repeat (erewrite bind_ok;
          [| erewrite bind_ok by (apply export_tabular, tabular_filter;
                                  rewrite <-Hrows; exact Ht);
             reflexivity ]);
  unfold ret; simpl.

Lemma filter_rows_by_column_exports
    (w : World) (file_path : string) (f : CsvFile) (first : Row) (rest : list Row) :
  files w !! file_path = Some f → records f = first :: rest →
  tabular (Dict.keys first) (records f) →
  ∀ column_name value path,
    column_name ∈ Dict.keys first → path ≠ "" →
    let rows := filter (λ r, Dict.get r column_name = Some value) (records f) in
    let w' := mkWorld (<[path := mkCsvFile (Dict.keys first) rows]> (files w))
                (stdout w ++ [WroteRows (length rows) path]) in
    filter_rows_by_column file_path column_name value (Some path) w = (Ok rows, w')
    ∧ read_csv path w' = (Ok rows, w').
Proof.
  intros Hf Hrows Ht column_name value path Hcol Hpath rows w'. subst rows w'. split.
  - unfold filter_rows_by_column. filter_exports Hf Hrows Hcol Ht.
    by rewrite <-Hrows.
  - unfold read_csv. simpl. by rewrite lookup_insert_eq.
Qed.



Lemma filter_all {A} (P : A → Prop) `{!∀ x, Decision (P x)} (l : list A) :
  Forall P l → filter P l = l.
Proof.
  induction 1 as [|x l Hx _ IH]; [done|].
  by rewrite filter_cons, decide_True, IH.
Qed.

(** X4: filters chain through files.  After [filter_rows_by_column] has
    written the rows with [c1 = v1] of a [tabular] file to a path, the same
    filter run on that path for [c2 = v2] returns the rows of the first file
    that have both values, in their order; with the same column and value it
    returns the rows of the first run again. *)
Theorem filter_rows_by_column_chain
    (w : World) (file_path : string) (f : CsvFile) (first : Row) (rest : list Row)
    (c1 v1 c2 v2 path : string) :
  files w !! file_path = Some f → records f = first :: rest →
  tabular (Dict.keys first) (records f) →
  c1 ∈ Dict.keys first → c2 ∈ Dict.keys first → path ≠ "" →
  ∃ rows1 w1 w2,
    filter_rows_by_column file_path c1 v1 (Some path) w = (Ok rows1, w1)
    ∧ filter_rows_by_column path c2 v2 None w1
      = (Ok (filter (λ r, Dict.get r c1 = Some v1 ∧ Dict.get r c2 = Some v2) (records f)),
         w2)
    ∧ (c2 = c1 → v2 = v1 →
       filter_rows_by_column path c2 v2 None w1 = (Ok rows1, w2)).
Proof.
  intros Hf Hrows Ht Hc1 Hc2 Hpath.
  destruct (filter_rows_by_column_exports w file_path f first rest Hf Hrows Ht
              c1 v1 path Hc1 Hpath) as [Hrun Hread].
  remember (filter (λ r, Dict.get r c1 = Some v1) (records f)) as rows1 eqn:Heq.
  assert (filter (λ r, Dict.get r c2 = Some v2) rows1
          = filter (λ r, Dict.get r c1 = Some v1 ∧ Dict.get r c2 = Some v2) (records f))
    as Hboth.
  { subst rows1. rewrite list_filter_filter. apply list_filter_iff. naive_solver. }
  assert (tabular (Dict.keys first) rows1) as Ht1 by (subst rows1; by apply tabular_filter).
  assert (Forall (λ r, Dict.get r c1 = Some v1) rows1) as Hall1.
  { subst rows1. apply Forall_forall. by intros r [? _]%list_elem_of_filter. }
  clear Heq. rewrite <-Hboth. destruct rows1 as [|first1 rest1].
  - eexists [], _, _. split; [exact Hrun|].
    unfold filter_rows_by_column at 1 2.
    erewrite !bind_ok by exact Hread. split; [reflexivity | done].
  - assert (Dict.keys first1 = Dict.keys first) as Hkeys.
    { destruct Ht1 as [_ Hall]. by apply Forall_cons_1 in Hall as [-> _]. }
    eexists (first1 :: rest1), _, _. split; [exact Hrun|].
    unfold filter_rows_by_column at 1 2.
    erewrite !bind_ok by exact Hread. cbv beta iota.
    rewrite !decide_False by (rewrite Hkeys; by intros ?).
    split; [reflexivity|].
    intros -> ->. rewrite (filter_all _ (first1 :: rest1)) by done. reflexivity.
Qed.

Lemma filter_rows_by_column_chain_witness :
  let rows : list Row :=
    [[("Name", "77 a"); ("brand", "Zyn")]; [("Name", "b"); ("brand", "Other")];
     [("Name", "c"); ("brand", "Zyn")]] in
  let w := mkWorld {["data.csv" := mkCsvFile ["Name"; "brand"] rows]} [] in
  ∃ rows1 w1 w2,
    filter_rows_by_column "data.csv" "brand" "Zyn" (Some "zyn.csv") w = (Ok rows1, w1)
    ∧ filter_rows_by_column "zyn.csv" "Name" "c" None w1
      = (Ok [[("Name", "c"); ("brand", "Zyn")]], w2).
Proof.
  intros rows w.
  destruct (filter_rows_by_column_chain w "data.csv" (mkCsvFile ["Name"; "brand"] rows)
              [("Name", "77 a"); ("brand", "Zyn")]
              [[("Name", "b"); ("brand", "Other")]; [("Name", "c"); ("brand", "Zyn")]]
              "brand" "Zyn" "Name" "c" "zyn.csv" eq_refl eq_refl)
    as (rows1 & w1 & w2 & Hrun1 & Hrun2 & _).
  - split; by_decide.
  - by_decide.
  - by_decide.
  - done.
  - exists rows1, w1, w2. split; [exact Hrun1 | exact Hrun2].
Defined.

(** X5: the matched rows of [filter_rows_by_column_value] are the rows that
    [filter_rows_by_column] returns for the column [Attribute 2 value(s)];
    every matched row has the value there and no unmatched row has it (a row
    without the field is unmatched), and the two lists have as many rows as
    the file. *)
Theorem filter_rows_by_column_value_agrees
    (w : World) (file_path value : string) (f : CsvFile)
    (matched_output unmatched_output output_path : option string)
    (matched unmatched rows : list Row) (w1 w2 : World) :
  files w !! file_path = Some f →
  filter_rows_by_column_value file_path value matched_output unmatched_output w
  = (Ok (matched, unmatched), w1) →
  filter_rows_by_column file_path "Attribute 2 value(s)" value output_path w
  = (Ok rows, w2) →
  matched = rows
  ∧ Forall (λ r, Dict.get r "Attribute 2 value(s)" = Some value) matched
  ∧ Forall (λ r, Dict.get r "Attribute 2 value(s)" ≠ Some value) unmatched
  ∧ length matched + length unmatched = length (records f).
Proof.
  intros Hf [= -> ->]%(filter_rows_by_column_value_returns _ _ _ _ _ _ _ _ Hf)
    ->%(filter_rows_by_column_returns _ _ _ _ _ _ _ _ Hf).
  split_and!; [done | | |].
  - apply Forall_forall. by intros r [? _]%list_elem_of_filter.
  - apply Forall_forall. by intros r [? _]%list_elem_of_filter.
  - rewrite <-length_app. by rewrite filter_app_complement.
Qed.

Lemma filter_rows_by_column_value_agrees_witness :
  let rows : list Row :=
    [[("Name", "a"); ("Attribute 2 value(s)", "77")];
     [("Name", "b"); ("Attribute 2 value(s)", "78")];
     [("Name", "c")]] in
  let w := mkWorld {["data.csv" := mkCsvFile ["Name"; "Attribute 2 value(s)"] rows]} [] in
  let matched : list Row := [[("Name", "a"); ("Attribute 2 value(s)", "77")]] in
  let unmatched : list Row := [[("Name", "b"); ("Attribute 2 value(s)", "78")];
                               [("Name", "c")]] in
  filter_rows_by_column_value "data.csv" "77" None None w = (Ok (matched, unmatched), w)
  ∧ length matched + length unmatched = 3.
Proof.
  intros rows w matched unmatched.
  assert (filter_rows_by_column_value "data.csv" "77" None None w
          = (Ok (matched, unmatched), w)) as Hrun by reflexivity.
  split; [exact Hrun|].
  exact (proj2 (proj2 (proj2 (filter_rows_by_column_value_agrees w "data.csv" "77"
           (mkCsvFile ["Name"; "Attribute 2 value(s)"] rows) None None None
           matched unmatched matched w w eq_refl Hrun eq_refl)))).
Defined.

(** ** The prefix filter *)

Lemma append_cons (c : ascii) (s t : string) : String c s +:+ t = String c (s +:+ t).
Proof. reflexivity. Qed.

Lemma append_nil (t : string) : "" +:+ t = t.
Proof. reflexivity. Qed.












(** *** Trimming *)

Lemma lstrip_head (s : string) :
  Text.lstrip s = "" ∨ ∃ x t, Text.lstrip s = String x t ∧ Text.is_space x = false.
Proof.
  induction s as [|c s IH]; [by left|].
  simpl. destruct (Text.is_space c) eqn:Hc; [done|]. right. eauto.
Qed.

Lemma rstrip_head (x : ascii) (t : string) :
  Text.is_space x = false → ∃ t', Text.rstrip (String x t) = String x t'.
Proof. intros Hx. simpl. rewrite Hx. destruct (Text.rstrip t); eauto. Qed.

Lemma strip_head (s : string) :
  Text.strip s = "" ∨ ∃ x t, Text.strip s = String x t ∧ Text.is_space x = false.
Proof.
  unfold Text.strip. destruct (lstrip_head s) as [->|(x & t & -> & Hx)]; [by left|].
  right. destruct (rstrip_head x t Hx) as [t' ->]. eauto.
Qed.

Lemma lower_char_space (c : ascii) : Text.is_space c = true → Text.lower_char c = c.
Proof. destruct c as [[] [] [] [] [] [] [] []]; by vm_compute. Qed.

Lemma lower_char_not_space (x : ascii) :
  Text.is_space x = false → Text.is_space (Text.lower_char x) = false.
Proof. destruct x as [[] [] [] [] [] [] [] []]; by vm_compute. Qed.

(** A blank text is made of whitespace only. *)
Lemma blank_cons (c : ascii) (s : string) :
  Text.lstrip (String c s) = "" → Text.is_space c = true ∧ Text.lstrip s = "".
Proof. simpl. by destruct (Text.is_space c). Qed.

Lemma strip_blank (s : string) : Text.strip s = "" → Text.lstrip s = "".
Proof.
  unfold Text.strip. destruct (lstrip_head s) as [->|(x & t & -> & Hx)]; [done|].
  by destruct (rstrip_head x t Hx) as [t' ->].
Qed.

Lemma rstrip_blank (s : string) : Text.lstrip s = "" → Text.rstrip s = "".
Proof.
  induction s as [|c s IH]; [done|].
  intros [Hc Hs]%blank_cons. simpl. by rewrite (IH Hs), Hc.
Qed.

Lemma lstrip_blank_append (ws s : string) :
  Text.lstrip ws = "" → Text.lstrip (ws +:+ s) = Text.lstrip s.
Proof.
  induction ws as [|c ws IH]; [done|].
  intros [Hc Hs]%blank_cons. rewrite append_cons. simpl. rewrite Hc. auto.
Qed.

Lemma lstrip_append (s t : string) :
  Text.lstrip s ≠ "" → Text.lstrip (s +:+ t) = Text.lstrip s +:+ t.
Proof.
  induction s as [|c s IH]; [done|].
  rewrite append_cons. simpl. destruct (Text.is_space c); [auto | by rewrite append_cons].
Qed.

Lemma rstrip_append_blank (s ws : string) :
  Text.lstrip ws = "" → Text.rstrip (s +:+ ws) = Text.rstrip s.
Proof.
  intros Hws. induction s as [|c s IH].
  - rewrite append_nil. by apply rstrip_blank.
  - rewrite append_cons. simpl. by rewrite IH.
Qed.

Lemma strip_padding (ws1 val ws2 : string) :
  Text.strip ws1 = "" → Text.strip ws2 = "" →
  Text.strip (ws1 +:+ val +:+ ws2) = Text.strip val.
Proof.
  intros H1%strip_blank H2%strip_blank. unfold Text.strip.
  rewrite lstrip_blank_append by done.
  destruct (decide (Text.lstrip val = "")) as [Hv|Hv].
  - by rewrite lstrip_blank_append, H2, Hv.
  - by rewrite lstrip_append, rstrip_append_blank.
Qed.

(** X8: with [trim] set the prefix filter ignores whitespace around the
    values: a value padded with whitespace on both sides is matched exactly
    when the value itself is.  A prefix that begins with a whitespace
    character then matches no value, so the filter returns no row. *)
Theorem prefix_filter_trim (prefix : string) (case_sensitive : bool) :
  (∀ ws1 val ws2,
     Text.strip ws1 = "" → Text.strip ws2 = "" →
     starts prefix case_sensitive true (ws1 +:+ val +:+ ws2)
     = starts prefix case_sensitive true val)
  ∧ (∀ c rest, prefix = String c rest → Text.is_space c = true →
       (∀ val, starts prefix case_sensitive true val = false)
       ∧ ∀ w file_path column_name output_path f rows w',
           files w !! file_path = Some f →
           filter_rows_by_column_prefix file_path column_name prefix output_path
             case_sensitive true w = (Ok rows, w') →
           rows = []).
Proof.
  split.
  - intros ws1 val ws2 H1 H2. unfold starts. by rewrite strip_padding.
  - intros c rest -> Hc.
    assert (∀ val, starts (String c rest) case_sensitive true val = false) as Hnone.
    { intros val. unfold starts.
      destruct (strip_head val) as [->|(x & t & -> & Hx)].
      - by destruct case_sensitive.
      - destruct case_sensitive; simpl.
        + rewrite bool_decide_false; [done|]. intros ->. congruence.
        + rewrite bool_decide_false; [done|].
          rewrite (lower_char_space c Hc). intros Heq.
          apply lower_char_not_space in Hx. congruence. }
    split; [done|].
    intros w file_path column_name output_path f rows w' Hf
      ->%(filter_rows_by_column_prefix_returns _ _ _ _ _ _ _ _ _ _ Hf).
    apply filter_none, Forall_forall. intros r _ Hr%Is_true_true.
    by rewrite Hnone in Hr.
Qed.

Lemma prefix_filter_trim_witness :
  starts "77" false true "   77 Gold " = starts "77" false true "77 Gold"
  ∧ starts " 77" true true " 77 Gold" = false.
Proof.
  split.
  - exact (proj1 (prefix_filter_trim "77" false) "   " "77 Gold" " " eq_refl eq_refl).
  - exact (proj1 (proj2 (prefix_filter_trim " 77" true) " "%char "77" eq_refl eq_refl)
             " 77 Gold").
Defined.

(** ** The token pattern *)







(** * Further properties of the keyed index *)

(** X10: [index_by_keys] on no rows returns the empty index, whatever the key
    columns are.  On rows, it raises the [ValueError] that names the first of
    the key columns that the first row lacks; the rows after the first are
    not looked at for this. *)
Theorem index_by_keys_errors (key_columns : list string) :
  index_by_keys [] key_columns = Ok ∅
  ∧ ∀ first rest present col others,
      key_columns = present ++ col :: others →
      (∀ c, c ∈ present → c ∈ Dict.keys first) →
      col ∉ Dict.keys first →
      index_by_keys (first :: rest) key_columns
      = Raise (ValueError ("Key column '" +:+ col +:+ "' not found in CSV")).
Proof.
  split; [done|].
  intros first rest present col others -> Hpresent Hcol. unfold index_by_keys.
  assert (check_key_columns first (present ++ col :: others)
          = Raise (ValueError ("Key column '" +:+ col +:+ "' not found in CSV"))) as ->;
    [|done].
  induction present as [|c present IH]; simpl.
  - by rewrite decide_True.
  - rewrite decide_False by (intros Hn; apply Hn, Hpresent; left).
    apply IH. intros c' Hc'. apply Hpresent. by right.
Qed.

Lemma index_by_keys_errors_witness :
  index_by_keys [[("id", "1"); ("price", "10")]; [("id", "2"); ("sku", "x")]]
    ["id"; "sku"; "nokey"]
  = Raise (ValueError "Key column 'sku' not found in CSV").
Proof.
  refine (proj2 (index_by_keys_errors ["id"; "sku"; "nokey"])
            [("id", "1"); ("price", "10")] [[("id", "2"); ("sku", "x")]]
            ["id"] "sku" ["nokey"] eq_refl _ _).
  - intros c ->%list_elem_of_singleton. by_decide.
  - by_decide.
Defined.

(** X11: indexing rows followed by more rows gives the index of the later
    rows, completed by the entries of the earlier rows for the keys the later
    rows do not have. *)
Theorem index_by_keys_app
    (rows1 rows2 : list Row) (key_columns : list string) (idx1 idx2 idx : gmap Key Row) :
  index_by_keys rows1 key_columns = Ok idx1 →
  index_by_keys rows2 key_columns = Ok idx2 →
  index_by_keys (rows1 ++ rows2) key_columns = Ok idx →
  idx = idx2 ∪ idx1.
Proof.
  intros H1 H2 H. apply map_eq. intros k.
  rewrite lookup_union, (index_by_keys_lookup _ _ _ _ H), (index_by_keys_lookup _ _ _ _ H1),
    (index_by_keys_lookup _ _ _ _ H2), filter_app, last_app.
  by destruct (last (filter _ rows2)), (last (filter _ rows1)).
Qed.

Lemma index_by_keys_app_witness :
  let rows1 : list Row := [[("id", "1"); ("v", "a")]; [("id", "2"); ("v", "b")]] in
  let rows2 : list Row := [[("id", "1"); ("v", "c")]] in
  ∃ idx1 idx2 idx,
    index_by_keys rows1 ["id"] = Ok idx1
    ∧ index_by_keys rows2 ["id"] = Ok idx2
    ∧ index_by_keys (rows1 ++ rows2) ["id"] = Ok idx
    ∧ idx = idx2 ∪ idx1.
Proof.
  intros rows1 rows2.
  exists (fill_index ["id"] rows1 ∅), (fill_index ["id"] rows2 ∅),
    (fill_index ["id"] (rows1 ++ rows2) ∅).
  split_and!; [reflexivity..|].
  exact (index_by_keys_app rows1 rows2 ["id"] _ _ _ eq_refl eq_refl eq_refl).
Defined.

(** X12: when no two rows have the same composite key, the index does not
    depend on the order of the rows. *)
Theorem index_by_keys_order
    (rows rows' : list Row) (key_columns : list string) (idx idx' : gmap Key Row) :
  rows ≡ₚ rows' →
  NoDup (key_of key_columns <$> rows) →
  index_by_keys rows key_columns = Ok idx →
  index_by_keys rows' key_columns = Ok idx' →
  idx = idx'.
Proof.
  intros Hperm Hnd H H'. apply map_eq. intros k.
  rewrite (index_by_keys_lookup _ _ _ _ H), (index_by_keys_lookup _ _ _ _ H').
  assert (length (filter (λ r, key_of key_columns r = k) rows) ≤ 1) as Hlen.
  { clear -Hnd. induction rows as [|r rows IH]; [simpl; lia|].
    rewrite fmap_cons in Hnd. apply NoDup_cons in Hnd as [Hr Hnd].
    rewrite filter_cons. case_decide as Hk; [|auto].
    rewrite filter_none; [simpl; lia|].
    apply Forall_forall. intros r' Hr' Hk'. apply Hr, list_elem_of_fmap.
    exists r'. by rewrite Hk, Hk'. }
  assert (filter (λ r, key_of key_columns r = k) rows
          ≡ₚ filter (λ r, key_of key_columns r = k) rows') as Hfilter by (by rewrite Hperm).
  destruct (filter _ rows) as [|r [|r2 l]]; simpl in Hlen; [| |lia].
  - apply Permutation_nil_l in Hfilter. by rewrite Hfilter.
  - apply Permutation_singleton_l in Hfilter. by rewrite Hfilter.
Qed.

Lemma index_by_keys_order_witness :
  let rows : list Row := [[("id", "1"); ("v", "a")]; [("id", "2"); ("v", "b")]] in
  let rows' : list Row := [[("id", "2"); ("v", "b")]; [("id", "1"); ("v", "a")]] in
  ∃ idx idx',
    index_by_keys rows ["id"] = Ok idx
    ∧ index_by_keys rows' ["id"] = Ok idx'
    ∧ idx = idx'.
Proof.
  intros rows rows'.
  exists (fill_index ["id"] rows ∅), (fill_index ["id"] rows' ∅).
  split_and!; [reflexivity..|].
  refine (index_by_keys_order rows rows' ["id"] _ _ (perm_swap _ _ _) _ eq_refl eq_refl).
  by_decide.
Defined.

(** X13: looking rows up by their key.  The index has an entry for the key of
    every row, and the row of an entry is a row of the sequence that has the
    key of the entry; when no two rows have the same key, every row is found
    under its own key. *)
Theorem index_by_keys_lookup_row
    (rows : list Row) (key_columns : list string) (idx : gmap Key Row) :
  index_by_keys rows key_columns = Ok idx →
  (∀ r, r ∈ rows →
        ∃ r', idx !! key_of key_columns r = Some r'
              ∧ r' ∈ rows ∧ key_of key_columns r' = key_of key_columns r)
  ∧ (∀ k r, idx !! k = Some r → r ∈ rows ∧ key_of key_columns r = k)
  ∧ (NoDup (key_of key_columns <$> rows) →
     ∀ r, r ∈ rows → idx !! key_of key_columns r = Some r).
Proof.
  intros Hidx.
  assert (∀ r, r ∈ rows →
               ∃ r', idx !! key_of key_columns r = Some r'
                     ∧ r' ∈ rows ∧ key_of key_columns r' = key_of key_columns r) as Hfind.
  { intros r Hr.
    assert (key_of key_columns r ∈ dom idx) as [r' Hr']%elem_of_dom.
    { rewrite (index_by_keys_dom _ _ _ Hidx), elem_of_list_to_set.
      apply list_elem_of_fmap. eauto. }
    exists r'. split; [done|]. by eapply index_by_keys_elem_of. }
  split_and!; [done | intros k r; by apply index_by_keys_elem_of |].
  intros Hnd r Hr. destruct (Hfind r Hr) as (r' & -> & Hr' & Hkey). f_equal.
  clear -Hnd Hr Hr' Hkey. induction rows as [|r0 rows IH]; [by apply elem_of_nil in Hr|].
  rewrite fmap_cons in Hnd. apply NoDup_cons in Hnd as [Hr0 Hnd].
  apply elem_of_cons in Hr as [->|Hr], Hr' as [->|Hr']; [done | | | by apply IH].
  - destruct Hr0. apply list_elem_of_fmap. eauto.
  - destruct Hr0. apply list_elem_of_fmap. eauto.
Qed.

Lemma index_by_keys_lookup_row_witness :
  ∃ idx : gmap Key Row,
    index_by_keys [[("id", "1"); ("v", "a")]; [("id", "2"); ("v", "b")]] ["id"] = Ok idx
    ∧ idx !! ["2"] = Some [("id", "2"); ("v", "b")].
Proof.
  eexists. split; [reflexivity|].
  refine (proj2 (proj2 (index_by_keys_lookup_row
            [[("id", "1"); ("v", "a")]; [("id", "2"); ("v", "b")]] ["id"] _ eq_refl))
            _ [("id", "2"); ("v", "b")] _); by_decide.
Defined.

(** * Further properties of the reconciliation *)

Lemma elem_of_only_rows (idx other : gmap Key Row) (k : Key) (r : Row) :
  (k, r) ∈ only_rows idx other ↔ idx !! k = Some r ∧ other !! k = None.
Proof.
  unfold only_rows. rewrite elem_of_entries, elem_of_sorted, elem_of_difference,
    elem_of_dom, not_elem_of_dom.
  split; [naive_solver|]. intros [Hk Ho]. by rewrite Hk.
Qed.

Lemma elem_of_row_diffs (compare_columns : list string) (k : Key) (r1 r2 : Row) (d : Diff) :
  d ∈ row_diffs compare_columns k r1 r2
  ↔ diff_key d = k ∧ diff_column d ∈ compare_columns
    ∧ value_file1 d = Dict.get_or r1 (diff_column d) ""
    ∧ value_file2 d = Dict.get_or r2 (diff_column d) ""
    ∧ value_file1 d ≠ value_file2 d.
Proof.
  unfold row_diffs. rewrite list_elem_of_omap. split.
  - intros (col & Hcol & Hd). case_decide; simplify_eq/=. done.
  - intros (<- & Hcol & H1 & H2 & Hne). exists (diff_column d). split; [done|].
    rewrite <-H1, <-H2, decide_True by done. by destruct d.
Qed.

Lemma elem_of_all_diffs (compare_columns : list string) (idx1 idx2 : gmap Key Row)
    (d : Diff) :
  d ∈ all_diffs compare_columns idx1 idx2
  ↔ ∃ r1 r2,
      idx1 !! diff_key d = Some r1 ∧ idx2 !! diff_key d = Some r2
      ∧ diff_column d ∈ compare_columns
      ∧ value_file1 d = Dict.get_or r1 (diff_column d) ""
      ∧ value_file2 d = Dict.get_or r2 (diff_column d) ""
      ∧ value_file1 d ≠ value_file2 d.
Proof.
  unfold all_diffs, key_diffs. rewrite list_elem_of_bind. split.
  - intros (k & Hd & Hk). destruct (idx1 !! k) as [r1|] eqn:H1; [|by apply elem_of_nil in Hd].
    destruct (idx2 !! k) as [r2|] eqn:H2; [|by apply elem_of_nil in Hd].
    apply elem_of_row_diffs in Hd as (<- & ?). eauto 10.
  - intros (r1 & r2 & H1 & H2 & Hd). exists (diff_key d). rewrite H1, H2. split.
    + by apply elem_of_row_diffs.
    + apply elem_of_sorted, elem_of_intersection. split; by apply elem_of_dom.
Qed.



(** ** Exchanging the two files *)







(** ** Counting *)








(** ** Errors of a run *)

Lemma check_key_columns_cases (first : Row) (key_columns : list string) :
  Forall (λ col, col ∈ Dict.keys first) key_columns
  ∨ ∃ col, col ∈ key_columns ∧ col ∉ Dict.keys first
           ∧ check_key_columns first key_columns
             = Raise (ValueError (key_column_not_found col)).
Proof.
  induction key_columns as [|c cols IH]; [by left|].
  simpl. destruct (decide (c ∉ Dict.keys first)) as [Hn|Hin].
  - right. exists c. split_and!; [left | done | done].
  - destruct IH as [Hall|(col & Hcol & Hn & Hraise)].
    + left. constructor; [by apply dec_stable | done].
    + right. exists col. split_and!; [by right | done | done].
Qed.

(** X17: a missing key column.  With rows in both files and compare columns
    among the fields of both first rows, a key column that the first row of
    one of the files lacks makes the run raise the [ValueError] of the index
    for such a column; the message does not say which file.  Nothing is
    printed and no file is written. *)
Theorem compare_missing_key_column
    (w : World) (file1 file2 : string) (f1 f2 : CsvFile) (first1 first2 : Row)
    (rest1 rest2 : list Row) (key_columns compare_columns : list string)
    (diff_output_path only_in_1_output only_in_2_output : option string) :
  files w !! file1 = Some f1 → records f1 = first1 :: rest1 →
  files w !! file2 = Some f2 → records f2 = first2 :: rest2 →
  (∀ col, col ∈ compare_columns → col ∈ Dict.keys first1 ∧ col ∈ Dict.keys first2) →
  (∃ col, col ∈ key_columns ∧ (col ∉ Dict.keys first1 ∨ col ∉ Dict.keys first2)) →
  ∃ col,
    col ∈ key_columns
    ∧ (col ∉ Dict.keys first1 ∨ col ∉ Dict.keys first2)
    ∧ compare_csv_by_keys file1 file2 key_columns compare_columns
        diff_output_path only_in_1_output only_in_2_output w
      = (Raise (ValueError ("Key column '" +:+ col +:+ "' not found in CSV")), w).
Proof.
  intros Hf1 Hrows1 Hf2 Hrows2 Hcc (c & Hc & Hmiss).
  unfold compare_csv_by_keys.
  erewrite bind_ok by (by apply read_csv_ok).
  erewrite bind_ok by (by apply read_csv_ok).
  rewrite Hrows1, Hrows2.
  erewrite bind_ok by (by apply check_compare_columns_ok, Forall_forall).
  destruct (check_key_columns_cases first1 key_columns)
    as [Hall1|(col & Hcol & Hn & Hraise)].
  - destruct (check_key_columns_cases first2 key_columns)
      as [Hall2|(col & Hcol & Hn & Hraise)].
    + destruct Hmiss as [Hn|Hn]; destruct Hn.
      * exact (proj1 (Forall_forall _ _) Hall1 c Hc).
      * exact (proj1 (Forall_forall _ _) Hall2 c Hc).
    + exists col. split_and!; [done | by right |].
      erewrite bind_ok by (unfold lift; by rewrite index_by_keys_ok).
      erewrite bind_raise; [done|].
      unfold lift, index_by_keys. by rewrite Hraise.
  - exists col. split_and!; [done | by left |].
    erewrite bind_raise; [done|].
    unfold lift, index_by_keys. by rewrite Hraise.
Qed.

Lemma compare_missing_key_column_witness :
  let rowsA : list Row := [[("id", "1"); ("price", "10")]] in
  let rowsB : list Row := [[("sku", "1"); ("price", "10")]] in
  let w := mkWorld {["a.csv" := mkCsvFile ["id"; "price"] rowsA;
                     "b.csv" := mkCsvFile ["sku"; "price"] rowsB]} [] in
  compare_csv_by_keys "a.csv" "b.csv" ["id"] ["price"]
    (Some "d.csv") (Some "o1.csv") (Some "o2.csv") w
  = (Raise (ValueError "Key column 'id' not found in CSV"), w).
Proof.
  intros rowsA rowsB w.
  destruct (compare_missing_key_column w "a.csv" "b.csv"
              (mkCsvFile ["id"; "price"] rowsA) (mkCsvFile ["sku"; "price"] rowsB)
              [("id", "1"); ("price", "10")] [("sku", "1"); ("price", "10")] [] []
              ["id"] ["price"] (Some "d.csv") (Some "o1.csv") (Some "o2.csv"))
    as (col & Hcol & _ & Hrun);
    [reflexivity | reflexivity | reflexivity | reflexivity | | |].
  - apply Forall_forall. by_decide.
  - exists "id". split; [by_decide | right; by_decide].
  - apply list_elem_of_singleton in Hcol. subst col. exact Hrun.
Defined.

(** X18: a missing input file.  When the first file does not exist, the run
    raises for it; when the first exists and the second does not, the run
    raises for the second, also when the first file has no rows: both files
    are read before either is looked at.  The filters raise for a missing
    file in the same way.  Nothing is printed or written. *)
Theorem missing_file_raises (w : World) :
  (∀ file1 file2 key_columns compare_columns d o1 o2,
     files w !! file1 = None →
     compare_csv_by_keys file1 file2 key_columns compare_columns d o1 o2 w
     = (Raise (FileNotFoundError file1), w))
  ∧ (∀ file1 file2 key_columns compare_columns d o1 o2,
       is_Some (files w !! file1) → files w !! file2 = None →
       compare_csv_by_keys file1 file2 key_columns compare_columns d o1 o2 w
       = (Raise (FileNotFoundError file2), w))
  ∧ (∀ file_path, files w !! file_path = None →
       (∀ column_name value out,
          filter_rows_by_column file_path column_name value out w
          = (Raise (FileNotFoundError file_path), w))
       ∧ (∀ value matched_output unmatched_output,
            filter_rows_by_column_value file_path value matched_output unmatched_output w
            = (Raise (FileNotFoundError file_path), w))
       ∧ (∀ column_name prefix out case_sensitive trim,
            filter_rows_by_column_prefix file_path column_name prefix out
              case_sensitive trim w
            = (Raise (FileNotFoundError file_path), w))
       ∧ (∀ out column_name,
            filter_rows_name_matches_cuba file_path out column_name w
            = (Raise (FileNotFoundError file_path), w))).
Proof.
  assert (∀ path, files w !! path = None →
                  read_csv path w = (Raise (FileNotFoundError path), w)) as Hread.
  { intros path Hp. unfold read_csv. by rewrite Hp. }
  split_and!.
  - intros. unfold compare_csv_by_keys. by erewrite bind_raise by (by apply Hread).
  - intros file1 file2 key_columns compare_columns d o1 o2 [f1 Hf1] Hf2.
    unfold compare_csv_by_keys.
    erewrite bind_ok by (by apply read_csv_ok).
    by erewrite bind_raise by (by apply Hread).
  - intros file_path Hp. split_and!; intros.
    + unfold filter_rows_by_column. by erewrite bind_raise by (by apply Hread).
    + unfold filter_rows_by_column_value. by erewrite bind_raise by (by apply Hread).
    + unfold filter_rows_by_column_prefix. by erewrite bind_raise by (by apply Hread).
    + unfold filter_rows_name_matches_cuba. by erewrite bind_raise by (by apply Hread).
Qed.

Lemma missing_file_raises_witness :
  let w := mkWorld {["a.csv" := mkCsvFile ["id"] []]} [] in
  compare_csv_by_keys "a.csv" "b.csv" ["id"] ["id"] None None None w
  = (Raise (FileNotFoundError "b.csv"), w).
Proof.
  intros w.
  refine (proj1 (proj2 (missing_file_raises w)) "a.csv" "b.csv" ["id"] ["id"]
            None None None _ eq_refl).
  by eexists.
Defined.

(** ** The files a call may touch *)

Lemma export_written (S : string → Prop) (path : string) (fns : list string)
    (rows : list Row) :
  S path → preserves (written S) (export path fns rows).
Proof.
  intros Hp. apply (preserves_export (written S) S);
    auto using open_w_written, writeheader_written, writerow_written.
Qed.

Lemma written_nothing (w w' : World) : written (λ _, False) w w' → files w' = files w.
Proof. intros H. apply map_eq. intros p. apply H. tauto. Qed.

Ltac filter_written :=
  apply (preserves_bind (written _));
  [apply (preserves_read_csv (written _)) | intros [|first rest]];
  [ apply (preserves_bind (written _));
    [apply print_written | intros _; apply (preserves_ret (written _))]
  | case_decide; [apply (preserves_raise (written _))|];
    repeat (apply (preserves_bind (written _)); [|intros _]);
    try apply (preserves_ret (written _));
    match goal with
    | |- preserves _ (match truthy ?out with _ => _ end) =>
        destruct (truthy out) as [path|] eqn:?; [|apply (preserves_ret (written _))];
        apply (preserves_bind (written _));
        [apply export_written; auto | intros _; apply print_written]
    end ].

Lemma filter_rows_by_column_written file_path column_name value output_path :
  preserves (written (λ p, truthy output_path = Some p))
    (filter_rows_by_column file_path column_name value output_path).
Proof. unfold filter_rows_by_column. filter_written. Qed.

Lemma filter_rows_by_column_value_written file_path value matched_output unmatched_output :
  preserves (written (λ p, truthy matched_output = Some p ∨ truthy unmatched_output = Some p))
    (filter_rows_by_column_value file_path value matched_output unmatched_output).
Proof. unfold filter_rows_by_column_value. filter_written. Qed.

Lemma filter_rows_by_column_prefix_written file_path column_name prefix output_path
    case_sensitive trim :
  preserves (written (λ p, truthy output_path = Some p))
    (filter_rows_by_column_prefix file_path column_name prefix output_path
       case_sensitive trim).
Proof. unfold filter_rows_by_column_prefix. filter_written. Qed.

Lemma filter_rows_name_matches_cuba_written file_path output_path column_name :
  preserves (written (λ p, truthy output_path = Some p))
    (filter_rows_name_matches_cuba file_path output_path column_name).
Proof. unfold filter_rows_name_matches_cuba. filter_written. Qed.

(** X19: a run of the reconciliation, whether it returns or raises, leaves
    every file as it was except those at the output paths it was given: the
    input files are only read.  Without output paths ([None] or the empty
    text for all three) no file changes at all. *)
Theorem compare_writes_only_outputs
    (w w' : World) (r : Result unit) (file1 file2 : string)
    (key_columns compare_columns : list string)
    (diff_output_path only_in_1_output only_in_2_output : option string) :
  compare_csv_by_keys file1 file2 key_columns compare_columns
    diff_output_path only_in_1_output only_in_2_output w = (r, w') →
  (∀ path,
     truthy diff_output_path ≠ Some path → truthy only_in_1_output ≠ Some path →
     truthy only_in_2_output ≠ Some path →
     files w' !! path = files w !! path)
  ∧ (truthy diff_output_path = None → truthy only_in_1_output = None →
     truthy only_in_2_output = None →
     files w' = files w).
Proof.
  intros Hrun%compare_csv_by_keys_written. split.
  - intros path Hd H1 H2. apply Hrun. naive_solver.
  - intros Hd H1 H2. apply map_eq. intros path. apply Hrun.
    rewrite Hd, H1, H2. naive_solver.
Qed.

Lemma compare_writes_only_outputs_witness :
  let rowsA : list Row := [[("id", "1"); ("price", "10")]] in
  let rowsB : list Row := [[("id", "2"); ("price", "25")]] in
  let w := mkWorld {["a.csv" := mkCsvFile ["id"; "price"] rowsA;
                     "b.csv" := mkCsvFile ["id"; "price"] rowsB]} [] in
  files (compare_csv_by_keys "a.csv" "b.csv" ["id"] ["price"]
           (Some "d.csv") (Some "o1.csv") (Some "o2.csv") w).2 !! "a.csv"
  = Some (mkCsvFile ["id"; "price"] rowsA).
Proof.
  intros rowsA rowsB w.
  destruct (compare_csv_by_keys "a.csv" "b.csv" ["id"] ["price"]
              (Some "d.csv") (Some "o1.csv") (Some "o2.csv") w) as [r w'] eqn:Hrun.
  cbn [snd].
  rewrite (proj1 (compare_writes_only_outputs w w' r _ _ _ _ _ _ _ Hrun) "a.csv");
    [reflexivity | by_decide..].
Defined.

(** X20: a filter, whether it returns or raises, leaves every file as it was
    except the one at its output path (the two output paths of the variant
    with the complement); without an output path no file changes. *)
Theorem filters_write_only_outputs (w w' : World) :
  (∀ file_path column_name value output_path r,
     filter_rows_by_column file_path column_name value output_path w = (r, w') →
     (∀ path, truthy output_path ≠ Some path → files w' !! path = files w !! path)
     ∧ (truthy output_path = None → files w' = files w))
  ∧ (∀ file_path value matched_output unmatched_output r,
       filter_rows_by_column_value file_path value matched_output unmatched_output w
       = (r, w') →
       (∀ path, truthy matched_output ≠ Some path → truthy unmatched_output ≠ Some path →
                files w' !! path = files w !! path)
       ∧ (truthy matched_output = None → truthy unmatched_output = None →
          files w' = files w))
  ∧ (∀ file_path column_name prefix output_path case_sensitive trim r,
       filter_rows_by_column_prefix file_path column_name prefix output_path
         case_sensitive trim w = (r, w') →
       (∀ path, truthy output_path ≠ Some path → files w' !! path = files w !! path)
       ∧ (truthy output_path = None → files w' = files w))
  ∧ (∀ file_path output_path column_name r,
       filter_rows_name_matches_cuba file_path output_path column_name w = (r, w') →
       (∀ path, truthy output_path ≠ Some path → files w' !! path = files w !! path)
       ∧ (truthy output_path = None → files w' = files w)).
Proof.
  split_and!.
  - intros file_path column_name value output_path r
      Hrun%filter_rows_by_column_written. split.
    + intros path Hp. by apply Hrun.
    + intros Hnone. apply map_eq. intros path. apply Hrun. by rewrite Hnone.
  - intros file_path value matched_output unmatched_output r
      Hrun%filter_rows_by_column_value_written. split.
    + intros path Hm Hu. apply Hrun. naive_solver.
    + intros Hm Hu. apply map_eq. intros path. apply Hrun. rewrite Hm, Hu. naive_solver.
  - intros file_path column_name prefix output_path case_sensitive trim r
      Hrun%filter_rows_by_column_prefix_written. split.
    + intros path Hp. by apply Hrun.
    + intros Hnone. apply map_eq. intros path. apply Hrun. by rewrite Hnone.
  - intros file_path output_path column_name r
      Hrun%filter_rows_name_matches_cuba_written. split.
    + intros path Hp. by apply Hrun.
    + intros Hnone. apply map_eq. intros path. apply Hrun. by rewrite Hnone.
Qed.

Lemma filters_write_only_outputs_witness :
  let rows : list Row := [[("Name", "Cuba")]; [("Name", "Aruba")]] in
  let w := mkWorld {["cuba.csv" := mkCsvFile ["Name"] rows]} [] in
  files (filter_rows_name_matches_cuba "cuba.csv" (Some "cuba_matches.csv") "Name" w).2
    !! "cuba.csv"
  = Some (mkCsvFile ["Name"] rows).
Proof.
  intros rows w.
  destruct (filter_rows_name_matches_cuba "cuba.csv" (Some "cuba_matches.csv") "Name" w)
    as [r w'] eqn:Hrun.
  cbn [snd].
  rewrite (proj1 (proj2 (proj2 (proj2 (filters_write_only_outputs w w'))) _ _ _ _ Hrun)
             "cuba.csv"); [reflexivity | by_decide].
Defined.

(** ** The rows of the difference report *)

Lemma set_fresh (r : Row) (k v : string) :
  k ∉ Dict.keys r → Dict.set r k v = r ++ [(k, v)].
Proof.
  unfold Dict.keys. induction r as [|[k' v'] r IH]; [done|].
  simpl. rewrite not_elem_of_cons. intros [Hne Hk].
  rewrite decide_False by done. by rewrite IH.
Qed.

Lemma foldl_set_zip (key_columns : list string) (k : Key) (row_out : Row) :
  NoDup (Dict.keys row_out ++ key_columns) →
  foldl (λ row_out cv, Dict.set row_out cv.1 cv.2) row_out (zip key_columns k)
  = row_out ++ zip key_columns k.
Proof.
  revert k row_out. induction key_columns as [|c cols IH]; intros k row_out Hnd.
  - simpl. by rewrite app_nil_r.
  - destruct k as [|v k]; simpl; [by rewrite app_nil_r|].
    apply NoDup_app in Hnd as (Hnd1 & Hdisj & Hnd2).
    apply NoDup_cons in Hnd2 as [Hc Hnd2].
    assert (c ∉ Dict.keys row_out) as Hfresh.
    { intros Hin. apply (Hdisj c Hin). left. }
    rewrite (set_fresh _ _ _ Hfresh), IH; [by rewrite <-app_assoc|].
    unfold Dict.keys in *. rewrite fmap_app. simpl.
    apply NoDup_app. split_and!; [|intros x Hx Hx'|done].
    + apply NoDup_app. split_and!; [done | | apply NoDup_singleton].
      intros x Hx ->%list_elem_of_singleton. done.
    + apply elem_of_app in Hx as [Hx|Hx%list_elem_of_singleton]; [|by subst x].
      apply (Hdisj x Hx). by right.
Qed.

Lemma get_app_l (r1 r2 : Row) (col : string) :
  col ∈ Dict.keys r1 → Dict.get (r1 ++ r2) col = Dict.get r1 col.
Proof.
  unfold Dict.keys. induction r1 as [|[k v] r1 IH]; simpl.
  - by intros ?%elem_of_nil.
  - case_decide; [done|]. intros [?|?]%elem_of_cons; [congruence | auto].
Qed.

Lemma get_app_r (r1 r2 : Row) (col : string) :
  col ∉ Dict.keys r1 → Dict.get (r1 ++ r2) col = Dict.get r2 col.
Proof.
  unfold Dict.keys. induction r1 as [|[k v] r1 IH]; simpl; [done|].
  rewrite not_elem_of_cons. intros [Hne Hcol]. rewrite decide_False by done. auto.
Qed.

Lemma key_of_zip (key_columns : list string) (k : Key) :
  NoDup key_columns → length k = length key_columns →
  key_of key_columns (zip key_columns k) = k.
Proof.
  unfold key_of. revert k. induction key_columns as [|c cols IH]; intros [|v k] Hnd Hlen;
    try done.
  apply NoDup_cons in Hnd as [Hc Hnd]. simpl in *.
  unfold Dict.get_or at 1. simpl. rewrite decide_True by done. simpl. f_equal.
  etrans; [|apply (IH k Hnd); lia]. apply list_fmap_ext.
  intros _ col Hcol%list_elem_of_lookup_2. unfold Dict.get_or. simpl.
  rewrite decide_False; [done|]. by intros ->.
Qed.

Lemma diff_row_layout (key_columns : list string) (d : Diff) :
  NoDup (diff_fieldnames key_columns) →
  diff_row key_columns d
  = zip key_columns (diff_key d)
    ++ [("column", diff_column d); ("value_file1", value_file1 d);
        ("value_file2", value_file2 d)].
Proof.
  unfold diff_fieldnames. intros (Hnd & Hdisj & Hres)%NoDup_app.
  unfold diff_row. rewrite foldl_set_zip by done. simpl.
  assert (∀ x, x ∈ ["column"; "value_file1"; "value_file2"] →
               x ∉ Dict.keys (zip key_columns (diff_key d))) as Hfresh.
  { intros x Hx Hin. unfold Dict.keys in Hin.
    apply list_elem_of_fmap in Hin as ([c v] & -> & Hin%elem_of_zip_l).
    by apply (Hdisj c). }
  rewrite (set_fresh (zip _ _) "column") by (apply Hfresh; set_solver).
  rewrite (set_fresh (_ ++ _) "value_file1"); cycle 1.
  { unfold Dict.keys. rewrite fmap_app. intros [Hin|Hin]%elem_of_app.
    - apply (Hfresh "value_file1"); [set_solver | done].
    - by apply list_elem_of_singleton in Hin. }
  rewrite (set_fresh (_ ++ _) "value_file2"); cycle 1.
  { unfold Dict.keys. rewrite !fmap_app. intros [[Hin|Hin]%elem_of_app|Hin]%elem_of_app.
    - apply (Hfresh "value_file2"); [set_solver | done].
    - by apply list_elem_of_singleton in Hin.
    - by apply list_elem_of_singleton in Hin. }
  by rewrite <-!app_assoc.
Qed.

Lemma key_fields_short (key_columns : list string) (k : Key) (i : nat) (row_out : Row) :
  i ≤ length k → length k < length key_columns + i →
  key_fields i key_columns k row_out = Raise IndexError.
Proof.
  revert i row_out. induction key_columns as [|c cols IH]; intros i row_out Hi Hlen;
    simpl in *; [lia|].
  destruct (k !! i) as [v|] eqn:Hv; [|done].
  apply lookup_lt_Some in Hv. apply IH; lia.
Qed.

(** X21: the row written for a difference.  When the key columns are
    distinct and none of them is named [column], [value_file1] or
    [value_file2], the row has the key columns with the values of the key,
    then the three report fields, in the order of the report's header; the
    key can be read back from the row.  A key tuple shorter than the key
    columns raises [IndexError]. *)
Theorem make_row_out_layout (key_columns : list string) (k : Key) (col v1 v2 : string) :
  (length k < length key_columns → make_row_out key_columns k col v1 v2 = Raise IndexError)
  ∧ (NoDup (key_columns ++ ["column"; "value_file1"; "value_file2"]) →
     length k = length key_columns →
     ∃ row_out,
       make_row_out key_columns k col v1 v2 = Ok row_out
       ∧ row_out = zip key_columns k
                   ++ [("column", col); ("value_file1", v1); ("value_file2", v2)]
       ∧ Dict.keys row_out = key_columns ++ ["column"; "value_file1"; "value_file2"]
       ∧ key_of key_columns row_out = k).
Proof.
  split.
  - intros Hlen. unfold make_row_out. rewrite key_fields_short; [done | lia | lia].
  - intros Hnd Hlen. eexists. split; [by apply make_row_out_ok|].
    rewrite (diff_row_layout _ _ Hnd). simpl.
    apply NoDup_app in Hnd as (Hnd & _ & _).
    split_and!; [done | |].
    + unfold Dict.keys. rewrite fmap_app, fst_zip by lia. done.
    + etrans; [|exact (key_of_zip key_columns k Hnd Hlen)].
      unfold key_of. apply list_fmap_ext. intros _ c Hc%list_elem_of_lookup_2.
      unfold Dict.get_or. rewrite get_app_l; [done|].
      unfold Dict.keys. by rewrite fst_zip by lia.
Qed.

Lemma make_row_out_layout_witness :
  make_row_out ["brand"; "size"] ["Zyn"; "6mg"] "price" "20" "25"
  = Ok [("brand", "Zyn"); ("size", "6mg"); ("column", "price"); ("value_file1", "20");
        ("value_file2", "25")].
Proof.
  destruct (proj2 (make_row_out_layout ["brand"; "size"] ["Zyn"; "6mg"] "price" "20" "25"))
    as (row_out & -> & -> & _); [by_decide | reflexivity | reflexivity].
Defined.

(** ** The report files *)

Lemma lookup_only_in_file_ne (first : Row) (rows : list (Key * Row))
    (output : option string) (fs : gmap string CsvFile) (p : string) :
  truthy output ≠ Some p → only_in_file first rows output fs !! p = fs !! p.
Proof.
  unfold only_in_file. destruct (truthy output) as [path|]; [|done].
  destruct rows; [done|]. intros Hne. apply lookup_insert_ne. congruence.
Qed.

Lemma lookup_diff_file_ne (key_columns : list string) (diffs : list Diff)
    (output : option string) (fs : gmap string CsvFile) (p : string) :
  truthy output ≠ Some p → diff_file key_columns diffs output fs !! p = fs !! p.
Proof.
  unfold diff_file. destruct (truthy output) as [path|]; [|done].
  destruct diffs; [done|]. intros Hne. apply lookup_insert_ne. congruence.
Qed.

Lemma lookup_only_in_file (first : Row) (rows : list (Key * Row))
    (path : string) (fs : gmap string CsvFile) :
  path ≠ "" → rows ≠ [] →
  Forall (λ kr, Dict.keys kr.2 = Dict.keys first) rows → NoDup (Dict.keys first) →
  only_in_file first rows (Some path) fs !! path
  = Some (mkCsvFile (Dict.keys first) rows.*2).
Proof.
  intros Hpath Hrows Hall Hnd. unfold only_in_file. rewrite truthy_Some by done.
  assert (project (Dict.keys first) ∘ snd <$> rows = rows.*2) as ->.
  { apply Forall_fmap_ext_1. eapply Forall_impl; [exact Hall|].
    intros [k r] Hkr. simpl in *. by apply project_id. }
  destruct rows as [|kr rows]; [done|]. by rewrite lookup_insert_eq.
Qed.

Lemma lookup_diff_file (key_columns : list string) (diffs : list Diff)
    (path : string) (fs : gmap string CsvFile) :
  path ≠ "" → diffs ≠ [] → NoDup (diff_fieldnames key_columns) →
  Forall (λ d, length (diff_key d) = length key_columns) diffs →
  diff_file key_columns diffs (Some path) fs !! path
  = Some (mkCsvFile (diff_fieldnames key_columns) (diff_row key_columns <$> diffs)).
Proof.
  intros Hpath Hdiffs Hnd Hall. unfold diff_file. rewrite truthy_Some by done.
  assert (project (diff_fieldnames key_columns) ∘ diff_row key_columns <$> diffs
          = diff_row key_columns <$> diffs) as ->.
  { apply Forall_fmap_ext_1. eapply Forall_impl; [exact Hall|].
    intros d Hd. simpl in *. apply project_id; [done|].
    rewrite (diff_row_layout _ _ Hnd). unfold Dict.keys, diff_fieldnames.
    rewrite fmap_app, fst_zip; [done | lia]. }
  destruct diffs as [|d diffs]; [done|]. by rewrite lookup_insert_eq.
Qed.

(** X22: the report files hold the rows as they are.  On two [tabular]
    files, with distinct key columns that avoid the three field names of the
    difference report and with three different output paths, the run returns
    and, for each report that is not empty, reading the file at its path back
    gives the rows of the report: the rows only in file 1 and only in file 2
    unchanged, which are rows of these files, and the rows of the
    differences. *)
Theorem compare_report_files
    (w : World) (file1 file2 : string) (f1 f2 : CsvFile) (first1 first2 : Row)
    (rest1 rest2 : list Row) (key_columns compare_columns : list string)
    (diff_output_path only_in_1_output only_in_2_output : string) :
  files w !! file1 = Some f1 → records f1 = first1 :: rest1 →
  files w !! file2 = Some f2 → records f2 = first2 :: rest2 →
  (∀ col, col ∈ key_columns ++ compare_columns →
          col ∈ Dict.keys first1 ∧ col ∈ Dict.keys first2) →
  tabular (Dict.keys first1) (records f1) →
  tabular (Dict.keys first2) (records f2) →
  NoDup (key_columns ++ ["column"; "value_file1"; "value_file2"]) →
  NoDup [""; diff_output_path; only_in_1_output; only_in_2_output] →
  ∃ idx1 idx2 w',
    index_by_keys (records f1) key_columns = Ok idx1
    ∧ index_by_keys (records f2) key_columns = Ok idx2
    ∧ compare_csv_by_keys file1 file2 key_columns compare_columns
        (Some diff_output_path) (Some only_in_1_output) (Some only_in_2_output) w
      = (Ok tt, w')
    ∧ (only_rows idx1 idx2 ≠ [] →
       read_csv only_in_1_output w' = (Ok (only_rows idx1 idx2).*2, w'))
    ∧ (only_rows idx2 idx1 ≠ [] →
       read_csv only_in_2_output w' = (Ok (only_rows idx2 idx1).*2, w'))
    ∧ (all_diffs compare_columns idx1 idx2 ≠ [] →
       read_csv diff_output_path w'
       = (Ok (diff_row key_columns <$> all_diffs compare_columns idx1 idx2), w'))
    ∧ (∀ r, r ∈ (only_rows idx1 idx2).*2 → r ∈ records f1)
    ∧ (∀ r, r ∈ (only_rows idx2 idx1).*2 → r ∈ records f2).
Proof.
  intros Hf1 Hrows1 Hf2 Hrows2 Hcols Ht1 Ht2 HndK Hpaths.
  destruct (compare_csv_by_keys_uniform w file1 file2 f1 f2 first1 first2 rest1 rest2
              key_columns compare_columns (Some diff_output_path) (Some only_in_1_output)
              (Some only_in_2_output)) as (idx1 & idx2 & Hidx1 & Hidx2 & Hrun);
    [done | done | done | done | done | by apply tabular_uniform
    | by apply tabular_uniform |].
  assert (diff_output_path ≠ "" ∧ only_in_1_output ≠ "" ∧ only_in_2_output ≠ ""
          ∧ diff_output_path ≠ only_in_1_output ∧ diff_output_path ≠ only_in_2_output
          ∧ only_in_1_output ≠ only_in_2_output) as (Hd & H1 & H2 & Hd1 & Hd2 & H12).
  { rewrite !NoDup_cons, !not_elem_of_cons in Hpaths. naive_solver. }
  assert (∀ rows idx other first,
            index_by_keys rows key_columns = Ok idx → tabular (Dict.keys first) rows →
            Forall (λ kr, kr.2 ∈ rows ∧ Dict.keys kr.2 = Dict.keys first)
              (only_rows idx other)) as Honly.
  { intros rows idx other first Hidx [_ Hall]. apply Forall_forall.
    intros [k r] [Hr _]%elem_of_only_rows.
    apply (index_by_keys_elem_of _ _ _ _ _ Hidx) in Hr as [Hr _]. simpl.
    split; [done|]. by eapply Forall_forall in Hall. }
  pose proof (Honly _ _ idx2 _ Hidx1 Ht1) as HA.
  pose proof (Honly _ _ idx1 _ Hidx2 Ht2) as HB.
  eexists idx1, idx2, _. split_and!; [done | done | exact Hrun | | | | |].
  - intros Hne. unfold read_csv, compared. cbn [files].
    rewrite lookup_diff_file_ne, lookup_only_in_file_ne
      by (rewrite truthy_Some by done; congruence).
    rewrite lookup_only_in_file; [done | done | done | | by destruct Ht1].
    eapply Forall_impl; [exact HA|]. by intros ? [_ ?].
  - intros Hne. unfold read_csv, compared. cbn [files].
    rewrite lookup_diff_file_ne by (rewrite truthy_Some by done; congruence).
    rewrite lookup_only_in_file; [done | done | done | | by destruct Ht2].
    eapply Forall_impl; [exact HB|]. by intros ? [_ ?].
  - intros Hne. unfold read_csv, compared. cbn [files].
    rewrite lookup_diff_file; [done | done | done | done |].
    apply Forall_forall. intros d (r1 & r2 & Hr1 & _)%elem_of_all_diffs.
    eapply index_by_keys_key_length; [exact Hidx1|]. by apply elem_of_dom.
  - intros r ([k r'] & -> & Hkr)%list_elem_of_fmap.
    eapply Forall_forall in HA; [|done]. by destruct HA.
  - intros r ([k r'] & -> & Hkr)%list_elem_of_fmap.
    eapply Forall_forall in HB; [|done]. by destruct HB.
Qed.

Lemma compare_report_files_witness :
  let rowsA : list Row := [[("id", "1"); ("price", "10")]; [("id", "2"); ("price", "20")]] in
  let rowsB : list Row := [[("id", "2"); ("price", "25")]; [("id", "3"); ("price", "30")]] in
  let w := mkWorld {["a.csv" := mkCsvFile ["id"; "price"] rowsA;
                     "b.csv" := mkCsvFile ["id"; "price"] rowsB]} [] in
  ∃ w',
    compare_csv_by_keys "a.csv" "b.csv" ["id"] ["price"]
      (Some "d.csv") (Some "o1.csv") (Some "o2.csv") w = (Ok tt, w')
    ∧ read_csv "o1.csv" w' = (Ok [[("id", "1"); ("price", "10")]], w').
Proof.
  intros rowsA rowsB w.
  destruct (compare_report_files w "a.csv" "b.csv"
              (mkCsvFile ["id"; "price"] rowsA) (mkCsvFile ["id"; "price"] rowsB)
              [("id", "1"); ("price", "10")] [("id", "2"); ("price", "25")]
              [[("id", "2"); ("price", "20")]] [[("id", "3"); ("price", "30")]]
              ["id"] ["price"] "d.csv" "o1.csv" "o2.csv")
    as (idx1 & idx2 & w' & Hidx1 & Hidx2 & Hrun & Hread & _);
    [reflexivity | reflexivity | reflexivity | reflexivity
    | apply Forall_forall; by_decide | split; by_decide | split; by_decide
    | by_decide | by_decide |].
  exists w'. split; [exact Hrun|].
  injection Hidx1 as <-. injection Hidx2 as <-. by apply Hread.
Defined.

(** X23: no difference report without differences.  On valid input where no
    shared key differs in a compare column, the run writes the same files as
    the run without a path for the difference report: the file at that path,
    unless the path is also given for another output, is as it was before,
    not created and not emptied. *)
Theorem diff_file_not_created
    (w : World) (file1 file2 : string) (f1 f2 : CsvFile) (first1 first2 : Row)
    (rest1 rest2 : list Row) (key_columns compare_columns : list string)
    (diff_output_path only_in_1_output only_in_2_output : option string) :
  files w !! file1 = Some f1 → records f1 = first1 :: rest1 →
  files w !! file2 = Some f2 → records f2 = first2 :: rest2 →
  (∀ col, col ∈ key_columns ++ compare_columns →
          col ∈ Dict.keys first1 ∧ col ∈ Dict.keys first2) →
  uniform (Dict.keys first1) (records f1) →
  uniform (Dict.keys first2) (records f2) →
  let run := compare_csv_by_keys file1 file2 key_columns compare_columns in
  ∃ idx1 idx2,
    index_by_keys (records f1) key_columns = Ok idx1
    ∧ index_by_keys (records f2) key_columns = Ok idx2
    ∧ (all_diffs compare_columns idx1 idx2 = [] →
       files (run diff_output_path only_in_1_output only_in_2_output w).2
       = files (run None only_in_1_output only_in_2_output w).2
       ∧ ∀ path,
           diff_output_path = Some path →
           truthy only_in_1_output ≠ Some path → truthy only_in_2_output ≠ Some path →
           files (run diff_output_path only_in_1_output only_in_2_output w).2 !! path
           = files w !! path).
Proof.
  intros Hf1 Hrows1 Hf2 Hrows2 Hcols Hu1 Hu2 run. subst run.
  destruct (compare_csv_by_keys_uniform w file1 file2 f1 f2 first1 first2 rest1 rest2
              key_columns compare_columns diff_output_path only_in_1_output
              only_in_2_output) as (idx1 & idx2 & Hidx1 & Hidx2 & Hrun); try done.
  destruct (compare_csv_by_keys_uniform w file1 file2 f1 f2 first1 first2 rest1 rest2
              key_columns compare_columns None only_in_1_output
              only_in_2_output) as (idx1' & idx2' & Hidx1' & Hidx2' & Hrun'); try done.
  assert (idx1' = idx1) as -> by congruence. assert (idx2' = idx2) as -> by congruence.
  exists idx1, idx2. split_and!; [done | done |]. intros Hdiffs.
  assert (files (compare_csv_by_keys file1 file2 key_columns compare_columns
                   diff_output_path only_in_1_output only_in_2_output w).2
          = files (compare_csv_by_keys file1 file2 key_columns compare_columns
                     None only_in_1_output only_in_2_output w).2) as Heq.
  { rewrite Hrun, Hrun'. unfold compared. cbn [snd files]. rewrite Hdiffs.
    unfold diff_file. by destruct (truthy diff_output_path). }
  split; [done|]. intros path _ H1 H2. rewrite Heq.
  destruct (compare_csv_by_keys _ _ _ _ None _ _ w) as [r w'] eqn:Hnone.
  apply compare_csv_by_keys_written in Hnone. apply Hnone. naive_solver.
Qed.

Lemma diff_file_not_created_witness :
  let rowsA : list Row := [[("id", "1"); ("price", "10")]; [("id", "2"); ("price", "20")]] in
  let rowsB : list Row := [[("id", "2"); ("price", "20")]; [("id", "3"); ("price", "30")]] in
  let w := mkWorld {["a.csv" := mkCsvFile ["id"; "price"] rowsA;
                     "b.csv" := mkCsvFile ["id"; "price"] rowsB]} [] in
  files (compare_csv_by_keys "a.csv" "b.csv" ["id"] ["price"]
           (Some "d.csv") (Some "o1.csv") (Some "o2.csv") w).2 !! "d.csv"
  = None.
Proof.
  intros rowsA rowsB w.
  destruct (diff_file_not_created w "a.csv" "b.csv"
              (mkCsvFile ["id"; "price"] rowsA) (mkCsvFile ["id"; "price"] rowsB)
              [("id", "1"); ("price", "10")] [("id", "2"); ("price", "20")]
              [[("id", "2"); ("price", "20")]] [[("id", "3"); ("price", "30")]]
              ["id"] ["price"] (Some "d.csv") (Some "o1.csv") (Some "o2.csv"))
    as (idx1 & idx2 & Hidx1 & Hidx2 & Hkeep);
    [reflexivity | reflexivity | reflexivity | reflexivity
    | apply Forall_forall; by_decide | by_decide | by_decide |].
  injection Hidx1 as <-. injection Hidx2 as <-.
  destruct Hkeep as [_ Hkeep]; [reflexivity|].
  apply (Hkeep "d.csv"); [reflexivity | by_decide | by_decide].
Defined.

(** * The script *)




